(** * keeta-cli: keystore, account resolver and derivation search

    A shallow embedding of the wallet code of the command-line client:
    [lib/keeta.ts] (keystore and resolver) and [commands/wallet.ts]
    (the [wallet:import] and [wallet:scan-balances] actions).

    The Keeta client library, the Node platform and the network are not
    part of the repository; they enter as the interfaces [Platform] and
    [KeetaLib] below.  Everything the repository itself computes is a
    definition that evaluates. *)

From Stdlib Require Import ZArith String Ascii List Bool Lia.
From Stdlib Require Import DecimalString DecimalN DecimalFacts.
From stdpp Require Import base option list strings gmap.

Import ListNotations.
Local Open Scope string_scope.
Local Open Scope list_scope.
Local Open Scope Z_scope.

(** ** JavaScript values and built-ins used by the commands *)

Module JS.

(** A JavaScript number as the commands use it: an integer (as produced by
    [parseInt], a loop counter or a literal) or [NaN].  The integer is
    exact; the double of the code equals it up to 2^53 in magnitude and is
    rounded beyond (see [safe_number] below). *)
Inductive number : Type :=
| NaN
| Num (z : Z).

Definition isNaN (n : number) : bool :=
  match n with NaN => true | Num _ => false end.

(** An exception value: the constructor name and the message. *)
Inductive exn : Type :=
| JsError (name msg : string).

(** Outcome of a synchronous call that may throw. *)
Inductive result (A : Type) : Type :=
| Ok (a : A)
| Err (e : exn).
Arguments Ok {A} a.
Arguments Err {A} e.


(** A JavaScript value as it occurs in a wallet object: what an object
    literal of the commands holds, or what [JSON.parse] returns for a member
    ([Undefined] stands for an absent member). *)
Inductive jsval : Type :=
| Undefined
| Null
| Bool (b : bool)
| Number (n : number)
| Str (s : string).

(** ToBoolean *)
Definition truthy (v : jsval) : bool :=
  match v with
  | Undefined | Null => false
  | Bool b => b
  | Number NaN => false
  | Number (Num z) => negb (z =? 0)
  | Str s => negb (String.eqb s "")
  end.

(** [a || b] *)
Definition js_or (a b : jsval) : jsval := if truthy a then a else b.

(** The same two operations on a command-line option, which is a string or
    [undefined]. *)
Definition truthy_opt (o : option string) : bool :=
  match o with
  | Some s => negb (String.eqb s "")
  | None => false
  end.

Definition opt_or (o : option string) (d : string) : string :=
  match o with
  | Some s => if String.eqb s "" then d else s
  | None => d
  end.

(** White space of [trim] and of the pattern [\s], among the characters of
    ASCII; a string is its bytes (see [is_ascii] below). *)
Definition is_space (c : ascii) : bool :=
  match N_of_ascii c with
  | 9 | 10 | 11 | 12 | 13 | 32 => true
  | _ => false
  end%N.

Fixpoint ltrim (s : string) : string :=
  match s with
  | String c s' => if is_space c then ltrim s' else s
  | EmptyString => EmptyString
  end.

Definition reverse (s : string) : string :=
  string_of_list_ascii (rev (list_ascii_of_string s)).

(** [s.trim()] *)
Definition trim (s : string) : string :=
  reverse (ltrim (reverse (ltrim s))).

(** [s.split(/\s+/)]: [acc] is the piece being read, [skipping] says that
    the previous character belonged to a separator. *)
Fixpoint split_ws_from (acc : string) (skipping : bool) (s : string)
  : list string :=
  match s with
  | EmptyString => [acc]
  | String c s' =>
      if is_space c
      then if skipping then split_ws_from "" true s'
           else acc :: split_ws_from "" true s'
      else split_ws_from (acc +:+ String c "") false s'
  end.

Definition split_ws (s : string) : list string := split_ws_from "" false s.

(** [s.split(',')] *)
Fixpoint split_comma_from (acc : string) (s : string) : list string :=
  match s with
  | EmptyString => [acc]
  | String c s' =>
      if Ascii.eqb c ","%char then acc :: split_comma_from "" s'
      else split_comma_from (acc +:+ String c "") s'
  end.

Definition split_comma (s : string) : list string := split_comma_from "" s.

Definition lower_char (c : ascii) : ascii :=
  let n := N_of_ascii c in
  if ((65 <=? n) && (n <=? 90))%N then ascii_of_N (n + 32) else c.

(** [s.toLowerCase()], on the letters of ASCII. *)
Fixpoint toLowerCase (s : string) : string :=
  match s with
  | EmptyString => EmptyString
  | String c s' => String (lower_char c) (toLowerCase s')
  end.

(** [s.startsWith(p)] *)
Definition startsWith (p s : string) : bool := String.prefix p s.

(** [s.slice(n)] *)
Fixpoint slice (n : nat) (s : string) : string :=
  match n, s with
  | O, _ => s
  | S n', String _ s' => slice n' s'
  | S _, EmptyString => EmptyString
  end.

(** Value of a digit in radix up to 36. *)
Definition digit_val (c : ascii) : option Z :=
  let n := Z.of_N (N_of_ascii c) in
  if (48 <=? n) && (n <=? 57) then Some (n - 48)
  else if (97 <=? n) && (n <=? 122) then Some (n - 87)
  else if (65 <=? n) && (n <=? 90) then Some (n - 55)
  else None.

(** The longest prefix of digits in [radix], read as a number; [None] when
    the prefix is empty. *)
Fixpoint parse_digits (radix : Z) (acc : option Z) (s : string) : option Z :=
  match s with
  | EmptyString => acc
  | String c s' =>
      match digit_val c with
      | Some d =>
          if d <? radix
          then parse_digits radix (Some (default 0 acc * radix + d)) s'
          else acc
      | None => acc
      end
  end.

(** [parseInt(s)] without a radix argument: the exact value of the digits
    (the code rounds it to a double). *)
Definition parseInt (s : string) : number :=
  let s := ltrim s in
  let '(sign, s) :=
    match s with
    | String "-" s' => (-1, s')
    | String "+" s' => (1, s')
    | _ => (1, s)
    end in
  let '(radix, s) :=
    if startsWith "0x" s || startsWith "0X" s then (16, slice 2 s)
    else (10, s) in
  match parse_digits radix None s with
  | Some v => Num (sign * v)
  | None => NaN
  end.

(** Decimal notation of an integer, as [String(n)] and [JSON.stringify] print
    it. *)
Definition string_of_Z (z : Z) : string :=
  if z <? 0
  then String "-" (NilZero.string_of_uint (N.to_uint (Z.to_N (- z))))
  else NilZero.string_of_uint (N.to_uint (Z.to_N z)).

(** [String(v)], as a template literal converts its holes. *)
Definition toString (v : jsval) : string :=
  match v with
  | Undefined => "undefined"
  | Null => "null"
  | Bool true => "true"
  | Bool false => "false"
  | Number NaN => "NaN"
  | Number (Num z) => string_of_Z z
  | Str s => s
  end.

End JS.
Export JS.

(** ** JSON text of flat objects

    [JSON.stringify(w, null, 2)] and [JSON.parse] on the documents a wallet
    file holds: one object whose members are strings, integers, booleans or
    [null].  A text is a byte string; strings are written byte for byte
    except for the characters JSON requires to be escaped.  Nested objects,
    arrays, fractions, exponents and escapes above U+007F are outside this
    model: the parser reports them under the name [OutsideModel] instead of
    inventing a value. *)

Module JSON.

Definition object : Type := list (string * jsval).

Definition dquote : ascii := ascii_of_N 34.

Definition hex_digit (n : N) : ascii :=
  ascii_of_N (if (n <? 10)%N then 48 + n else 87 + n)%N.

(** QuoteJSONString, one character. *)
Definition escape_char (c : ascii) : string :=
  let n := N_of_ascii c in
  if (n =? 34)%N then String "\" (String dquote "")
  else if (n =? 92)%N then "\\"
  else if (n =? 8)%N then "\b"
  else if (n =? 12)%N then "\f"
  else if (n =? 10)%N then "\n"
  else if (n =? 13)%N then "\r"
  else if (n =? 9)%N then "\t"
  else if (n <? 32)%N
       then "\u00" +:+ String (hex_digit (n / 16)) (String (hex_digit (n mod 16)) "")
       else String c "".

Fixpoint escape (s : string) : string :=
  match s with
  | EmptyString => EmptyString
  | String c s' => escape_char c +:+ escape s'
  end.

Definition quote (s : string) : string :=
  String dquote (escape s +:+ String dquote "").

(** The text of a member value; [None] for a member that is left out. *)
Definition stringify_value (v : jsval) : option string :=
  match v with
  | Undefined => None
  | Null => Some "null"
  | Bool true => Some "true"
  | Bool false => Some "false"
  | Number NaN => Some "null"
  | Number (Num z) => Some (string_of_Z z)
  | Str s => Some (quote s)
  end.

Definition newline : string := String (ascii_of_N 10) "".

Definition stringify_member (kv : string * jsval) : option string :=
  match stringify_value kv.2 with
  | Some t => Some ("  " +:+ quote kv.1 +:+ ": " +:+ t)
  | None => None
  end.

Fixpoint join_lines (ls : list string) : string :=
  match ls with
  | [] => ""
  | [l] => l
  | l :: ls' => l +:+ "," +:+ newline +:+ join_lines ls'
  end.

(** [JSON.stringify(o, null, 2)] *)
Definition stringify (o : object) : string :=
  match omap stringify_member o with
  | [] => "{}"
  | ls => "{" +:+ newline +:+ join_lines ls +:+ newline +:+ "}"
  end.

Inductive token : Type :=
| TLBrace | TRBrace | TLBracket | TRBracket | TColon | TComma
| TStr (s : string)
| TNum (neg : bool) (digits : string)
| TNull | TTrue | TFalse.

(** Lexer states: between tokens, inside a string, after a backslash, inside
    the four digits of a [\u] escape, inside a number, inside a literal
    name. *)
Inductive lstate : Type :=
| Idle
| InStr (acc : string)
| InEsc (acc : string)
| InHex (acc : string) (ds : list N)
| InNum (neg : bool) (ds : string)
| InLit (t : token) (rest : string).

Definition syntax_error : exn := JsError "SyntaxError" "Unexpected token in JSON".
Definition outside_model (what : string) : exn := JsError "OutsideModel" what.

Definition is_digit (c : ascii) : bool :=
  let n := N_of_ascii c in ((48 <=? n) && (n <=? 57))%N.

Definition hex_val (c : ascii) : option N :=
  let n := N_of_ascii c in
  if ((48 <=? n) && (n <=? 57))%N then Some (n - 48)%N
  else if ((97 <=? n) && (n <=? 102))%N then Some (n - 87)%N
  else if ((65 <=? n) && (n <=? 70))%N then Some (n - 55)%N
  else None.

Definition snoc (s : string) (c : ascii) : string := s +:+ String c "".

(** A number token is complete: the digits must be a JSON integer. *)
Definition close_number (neg : bool) (ds : string) : result token :=
  match ds with
  | EmptyString => Err syntax_error
  | String "0" (String _ _) => Err syntax_error
  | _ => Ok (TNum neg ds)
  end.

Definition step_idle (c : ascii) : result (list token * lstate) :=
  match N_of_ascii c with
  | 9 | 10 | 13 | 32 => Ok ([], Idle)
  | 123 => Ok ([TLBrace], Idle)
  | 125 => Ok ([TRBrace], Idle)
  | 91 => Ok ([TLBracket], Idle)
  | 93 => Ok ([TRBracket], Idle)
  | 58 => Ok ([TColon], Idle)
  | 44 => Ok ([TComma], Idle)
  | 34 => Ok ([], InStr "")
  | 45 => Ok ([], InNum true "")
  | 110 => Ok ([], InLit TNull "ull")
  | 116 => Ok ([], InLit TTrue "rue")
  | 102 => Ok ([], InLit TFalse "alse")
  | _ => if is_digit c then Ok ([], InNum false (String c "")) else Err syntax_error
  end%N.

Definition step (st : lstate) (c : ascii) : result (list token * lstate) :=
  match st with
  | Idle => step_idle c
  | InStr acc =>
      let n := N_of_ascii c in
      if (n =? 34)%N then Ok ([TStr acc], Idle)
      else if (n =? 92)%N then Ok ([], InEsc acc)
      else if (n <? 32)%N then Err syntax_error
      else Ok ([], InStr (snoc acc c))
  | InEsc acc =>
      match N_of_ascii c with
      | 34 => Ok ([], InStr (snoc acc (ascii_of_N 34)))
      | 92 => Ok ([], InStr (snoc acc (ascii_of_N 92)))
      | 47 => Ok ([], InStr (snoc acc (ascii_of_N 47)))
      | 98 => Ok ([], InStr (snoc acc (ascii_of_N 8)))
      | 102 => Ok ([], InStr (snoc acc (ascii_of_N 12)))
      | 110 => Ok ([], InStr (snoc acc (ascii_of_N 10)))
      | 114 => Ok ([], InStr (snoc acc (ascii_of_N 13)))
      | 116 => Ok ([], InStr (snoc acc (ascii_of_N 9)))
      | 117 => Ok ([], InHex acc [])
      | _ => Err syntax_error
      end%N
  | InHex acc ds =>
      match hex_val c with
      | None => Err syntax_error
      | Some d =>
          match ds with
          | [h1; h2; h3] =>
              let code := (((h1 * 16 + h2) * 16 + h3) * 16 + d)%N in
              if (code <? 128)%N then Ok ([], InStr (snoc acc (ascii_of_N code)))
              else Err (outside_model "escape above U+007F")
          | _ => Ok ([], InHex acc (ds ++ [d]))
          end
      end
  | InNum neg ds =>
      if is_digit c then Ok ([], InNum neg (snoc ds c))
      else
        match N_of_ascii c with
        | 46 | 101 | 69 => Err (outside_model "fraction or exponent")
        | _ =>
            match close_number neg ds, step_idle c with
            | Ok t, Ok (ts, st') => Ok (t :: ts, st')
            | Err e, _ => Err e
            | _, Err e => Err e
            end
        end%N
  | InLit t rest =>
      match rest with
      | String c' EmptyString =>
          if Ascii.eqb c c' then Ok ([t], Idle) else Err syntax_error
      | String c' rest' =>
          if Ascii.eqb c c' then Ok ([], InLit t rest') else Err syntax_error
      | EmptyString => Err syntax_error
      end
  end.

(** End of input. *)
Definition finish (st : lstate) : result (list token) :=
  match st with
  | Idle => Ok []
  | InNum neg ds =>
      match close_number neg ds with
      | Ok t => Ok [t]
      | Err e => Err e
      end
  | _ => Err syntax_error
  end.

Fixpoint lex_from (st : lstate) (s : string) : result (list token) :=
  match s with
  | EmptyString => finish st
  | String c s' =>
      match step st c with
      | Err e => Err e
      | Ok (ts, st') =>
          match lex_from st' s' with
          | Ok ts' => Ok (ts ++ ts')
          | Err e => Err e
          end
      end
  end.

Definition lex (s : string) : result (list token) := lex_from Idle s.

Definition Z_of_digits (neg : bool) (ds : string) : Z :=
  let n := Z.of_N (N.of_uint (default Decimal.Nil (NilZero.uint_of_string ds))) in
  if neg then - n else n.

Definition value_of_token (t : token) : result jsval :=
  match t with
  | TStr s => Ok (Str s)
  | TNum neg ds => Ok (Number (Num (Z_of_digits neg ds)))
  | TNull => Ok Null
  | TTrue => Ok (Bool true)
  | TFalse => Ok (Bool false)
  | TLBrace | TLBracket => Err (outside_model "nested value")
  | _ => Err syntax_error
  end.

(** The members after the opening brace of a non-empty object. *)
Fixpoint parse_members (ts : list token) : result object :=
  match ts with
  | TStr k :: TColon :: t :: rest =>
      match value_of_token t with
      | Err e => Err e
      | Ok v =>
          match rest with
          | [TRBrace] => Ok [(k, v)]
          | TComma :: rest' =>
              match parse_members rest' with
              | Ok ms => Ok ((k, v) :: ms)
              | Err e => Err e
              end
          | _ => Err syntax_error
          end
      end
  | _ => Err syntax_error
  end.

(** [JSON.parse(text)] for a text that holds one flat object. *)
Definition parse (text : string) : result object :=
  match lex text with
  | Err e => Err e
  | Ok [TLBrace; TRBrace] => Ok []
  | Ok (TLBrace :: ts) => parse_members ts
  | Ok [] => Err syntax_error
  | Ok _ => Err (outside_model "top-level value that is not an object")
  end.

(** [o.k]: the value of member [k]; the last one wins when a text repeats a
    name, an absent member reads as [undefined]. *)
Fixpoint get (k : string) (o : object) : jsval :=
  match o with
  | [] => Undefined
  | (k', v) :: o' =>
      match get k o' with
      | Undefined => if String.eqb k k' then v else Undefined
      | v' => v'
      end
  end.

End JSON.

(** ** External collaborators *)

(** [node:os] and [node:path]. *)
Class Platform : Type := {
  homedir : string;
  path_join : list string -> string;
  path_dirname : string -> string;
}.

Inductive AccountKeyAlgorithm : Type :=
| ED25519
| ECDSA_SECP256K1
| ECDSA_SECP256R1.

(** One entry of what [allBalances] returns; the amount, when the entry has
    one, is a bigint. *)
Record BalanceData : Type := {
  token : string;
  balance : option Z;
}.

(** What [getAccountInfo] returns, as far as the scan reads it. *)
Record AccountInfo : Type := {
  balances : option (list BalanceData);
}.

(** [@keetanetwork/keetanet-client].  Derivation is pure and may throw; a
    network query may fail and may change the state of the network, which
    is threaded explicitly. *)
Class KeetaLib : Type := {
  Account : Type;
  UserClient : Type;
  ReadOnlyClient : Type;
  NetState : Type;
  fromSeed : jsval -> jsval -> AccountKeyAlgorithm -> result Account;
  fromECDSASECP256K1PrivateKey : jsval -> result Account;
  publicKeyString : Account -> string;
  seedFromPassphrase : string -> result string;
  fromNetwork : string -> option Account -> result UserClient;
  allBalances : UserClient -> NetState -> result (list BalanceData) * NetState;
  getAccountInfo :
    ReadOnlyClient -> Account -> NetState -> result AccountInfo * NetState;
  (** Imported from [lib/keeta.js] by [commands/wallet.ts]; that file does
      not define it in the sources at hand, so it is taken as given. *)
  readOnlyClientFrom : string -> result ReadOnlyClient;
}.

(** ** Wallet record *)

(** [type Wallet] of [lib/keeta.ts].  The type is erased at run time and
    [loadWallet] returns whatever the file holds, so every field is a
    [jsval]; [Undefined] is an absent field. *)
Record Wallet : Type := {
  seed : jsval;
  index : jsval;
  algo : jsval;
  privateKeySecp256k1 : jsval;
  address : jsval;
}.

(** The object [JSON.stringify] sees, and the record read off a parsed
    object.  Members are listed in the order of the type declaration; an
    object literal of the commands may list them in another order, which
    changes the text of the file but no field read from it. *)
Definition wallet_to_object (w : Wallet) : JSON.object :=
  [("seed", seed w); ("index", index w); ("algo", algo w);
   ("privateKeySecp256k1", privateKeySecp256k1 w); ("address", address w)].

Definition wallet_of_object (o : JSON.object) : Wallet :=
  {| seed := JSON.get "seed" o;
     index := JSON.get "index" o;
     algo := JSON.get "algo" o;
     privateKeySecp256k1 := JSON.get "privateKeySecp256k1" o;
     address := JSON.get "address" o |}.

(** ** Process state and the command monad *)

Record FS : Type := {
  files : gmap string string;
  dirs : gset string;
  readonly : gset string;
}.

(** What a probe printed about one (algorithm, index) pair. *)
Inductive ProbeStatus : Type :=
| HasBalance (addr : string) (count : nat) (total : Z)
| NoBalance (addr : string)
| NetworkError (addr : string)
| ProbeError (e : exn).

(** Console output.  [console.error] lines carry their text; of the
    [console.log] lines only those that report a result are kept, as data. *)
Inductive Msg : Type :=
| ErrLine (text : string)
| Probed (algorithm : string) (idx : Z) (st : ProbeStatus)
| Selected (w : Wallet) (addr : string) (total : Z)
| NoWalletFound
| Imported (addr : string) (keyfile : string)
| ScanRow (algorithm : jsval) (idx : Z) (addr : string) (count : nat)
| ScanNetworkError (algorithm : jsval) (idx : Z)
| ScanComplete (matches : nat).

Inductive Res (A : Type) : Type :=
| Ret (a : A)
| Throw (e : exn)
| Exit (code : Z).
Arguments Ret {A} a.
Arguments Throw {A} e.
Arguments Exit {A} code.

Section Commands.

Context {P : Platform} {L : KeetaLib}.

Record World : Type := {
  fs : FS;
  net : NetState;
  net_calls : nat;
  console : list Msg;
}.

Definition M (A : Type) : Type := World -> Res A * World.

#[global] Instance M_ret : MRet M := fun A a w => (Ret a, w).

#[global] Instance M_bind : MBind M := fun A B f m w =>
  match m w with
  | (Ret a, w') => f a w'
  | (Throw e, w') => (Throw e, w')
  | (Exit c, w') => (Exit c, w')
  end.

Definition throw {A} (e : exn) : M A := fun w => (Throw e, w).

(** [process.exit(code)]: nothing after it runs, no handler catches it. *)
Definition process_exit {A} (code : Z) : M A := fun w => (Exit code, w).

(** [try { m } catch (e) { h e }] *)
Definition try_catch {A} (m : M A) (h : exn -> M A) : M A := fun w =>
  match m w with
  | (Throw e, w') => h e w'
  | r => r
  end.

Definition lift {A} (r : result A) : M A :=
  match r with
  | Ok a => mret a
  | Err e => throw e
  end.

Definition console_put (m : Msg) : M unit := fun w =>
  (Ret tt, {| fs := fs w; net := net w; net_calls := net_calls w;
              console := console w ++ [m] |}).

Definition set_fs (f : FS) (w : World) : World :=
  {| fs := f; net := net w; net_calls := net_calls w; console := console w |}.

(** One request to the network: the facade answers from the current network
    state, and the request is counted. *)
Definition net_call {A} (q : NetState -> result A * NetState) : M A := fun w =>
  let '(r, n') := q (net w) in
  let w' := {| fs := fs w; net := n'; net_calls := S (net_calls w);
               console := console w |} in
  match r with
  | Ok a => (Ret a, w')
  | Err e => (Throw e, w')
  end.

(** [for (const x of xs) body], with the loop-carried variables as [st]. *)
Fixpoint for_of {A S} (xs : list A) (body : A -> S -> M S) (st : S) : M S :=
  match xs with
  | [] => mret st
  | x :: xs' => st' ← body x st; for_of xs' body st'
  end.

(** *** [node:fs] *)

Definition existsSync (p : string) : M bool := fun w =>
  (Ret (bool_decide (is_Some (files (fs w) !! p)) || bool_decide (p ∈ dirs (fs w))), w).

(** [mkdirSync(dir, { recursive: true })] *)
Definition mkdirSync (dir : string) : M unit := fun w =>
  (Ret tt, set_fs {| files := files (fs w); dirs := {[dir]} ∪ dirs (fs w);
                     readonly := readonly (fs w) |} w).

Definition writeFileSync (f : string) (data : string) : M unit := fun w =>
  if bool_decide (path_dirname f ∈ dirs (fs w)) then
    if bool_decide (f ∈ dirs (fs w)) then (Throw (JsError "Error" "EISDIR"), w)
    else if bool_decide (f ∈ readonly (fs w)) then (Throw (JsError "Error" "EACCES"), w)
    else
      (Ret tt, set_fs {| files := <[f := data]> (files (fs w)); dirs := dirs (fs w);
                         readonly := readonly (fs w) |} w)
  else (Throw (JsError "Error" "ENOENT"), w).

Definition readFileSync (f : string) : M string := fun w =>
  match files (fs w) !! f with
  | Some data => (Ret data, w)
  | None => (Throw (JsError "Error" "ENOENT"), w)
  end.

(** ** [lib/keeta.ts] *)

Definition defaultKeyfile : string :=
  path_join [homedir; ".keeta"; "wallet.json"].

Definition ensureDir (p : string) : M unit :=
  let dir := path_dirname p in
  ex ← existsSync dir;
  if negb ex then mkdirSync dir else mret tt.

Definition saveWallet (w : Wallet) (file : option string) : M unit :=
  let f := opt_or file defaultKeyfile in
  ensureDir f;;
  writeFileSync f (JSON.stringify (wallet_to_object w)).

Definition loadWallet (file : option string) : M (option Wallet) :=
  let f := opt_or file defaultKeyfile in
  ex ← existsSync f;
  if negb ex then mret None
  else
    text ← readFileSync f;
    o ← lift (JSON.parse text);
    mret (Some (wallet_of_object o)).

Definition algoConst (name : jsval) : result AccountKeyAlgorithm :=
  match name with
  | Str "ed25519" => Ok ED25519
  | Str "secp256k1" => Ok ECDSA_SECP256K1
  | Str "secp256r1" => Ok ECDSA_SECP256R1
  | _ => Err (JsError "Error" ("Unknown algo: " +:+ toString name))
  end.

Definition accountFromWallet (wallet : Wallet) : result Account :=
  if truthy (privateKeySecp256k1 wallet) then
    fromECDSASECP256K1PrivateKey (privateKeySecp256k1 wallet)
  else
    match algoConst (js_or (algo wallet) (Str "ed25519")) with
    | Ok a => fromSeed (seed wallet) (js_or (index wallet) (Number (Num 0))) a
    | Err e => Err e
    end.

Definition clientFrom (network : string) (account : option Account)
  : result UserClient :=
  fromNetwork network account.

(** ** [commands/wallet.ts] *)

Definition getKeyfile (keyfile : option string) : string :=
  opt_or keyfile defaultKeyfile.

(** Options of [wallet:import] as commander hands them to the action. *)
Record ImportOpts : Type := {
  io_seed : option string;
  io_priv : option string;
  io_mnemonic : option string;
  io_algo : string;
  io_index : string;
  io_autoDetect : bool;
  io_network : string;
  io_keyfile : option string;
}.

Definition seed_wallet (s : jsval) (i : jsval) (a : jsval) : Wallet :=
  {| seed := s; index := i; algo := a;
     privateKeySecp256k1 := Undefined; address := Undefined |}.

(** The loop-carried variables of the auto-detect search:
    [foundWallet], [maxBalance], [foundAddress]. *)
Record Detect : Type := {
  foundWallet : option Wallet;
  maxBalance : Z;
  foundAddress : string;
}.

Definition detect_init : Detect :=
  {| foundWallet := None; maxBalance := 0; foundAddress := "" |}.

(** [totalBalance += BigInt(tokenInfo.balance || 0)] over the entries.  The
    amounts are bigints, which the replacer prints in decimal and [BigInt]
    reads back unchanged; an entry without an amount counts 0. *)
Definition sum_balances (bs : list BalanceData) : Z :=
  fold_left (fun acc b => acc + default 0 (balance b)) bs 0.

Definition algorithms : list string := ["ed25519"; "secp256k1"; "secp256r1"].
Definition indices : list Z := [0; 1; 2; 3; 4; 5].

(** Body of the inner loop of the search: one probe. *)
Definition detect_probe (mnemonic network testAlgo : string) (idx : Z)
    (st : Detect) : M Detect :=
  try_catch
    (sd ← lift (seedFromPassphrase mnemonic);
     let testWallet := seed_wallet (Str sd) (Number (Num idx)) (Str testAlgo) in
     acct ← lift (accountFromWallet testWallet);
     let addr := publicKeyString acct in
     client ← lift (clientFrom network (Some acct));
     try_catch
       (bals ← net_call (allBalances client);
        let balanceCount := length bals in
        let totalBalance := sum_balances bals in
        if (0 <? balanceCount)%nat then
          console_put (Probed testAlgo idx (HasBalance addr balanceCount totalBalance));;
          if maxBalance st <? totalBalance
          then mret {| foundWallet := Some testWallet;
                       maxBalance := totalBalance;
                       foundAddress := addr |}
          else mret st
        else
          console_put (Probed testAlgo idx (NoBalance addr));;
          mret st)
       (fun _ =>
          console_put (Probed testAlgo idx (NetworkError addr));;
          mret st))
    (fun error =>
       console_put (Probed testAlgo idx (ProbeError error));;
       mret st).

(** The two nested loops. *)
Definition detect_loop (mnemonic network : string) : M Detect :=
  for_of algorithms
    (fun testAlgo st =>
       for_of indices (fun idx st' => detect_probe mnemonic network testAlgo idx st') st)
    detect_init.

Definition strip_0x (s : string) : string :=
  if startsWith "0x" s then slice 2 s else s.

(** The part of the [wallet:import] action that builds the record. *)
Definition import_wallet (opts : ImportOpts) : M Wallet :=
  let a := toLowerCase (io_algo opts) in
  if truthy_opt (io_mnemonic opts) then
    let mnemonic := trim (default "" (io_mnemonic opts)) in
    let words := split_ws mnemonic in
    if negb (length words =? 24)%nat then
      console_put (ErrLine "Mnemonic must be exactly 24 words");;
      process_exit 1
    else if io_autoDetect opts then
      st ← detect_loop mnemonic (io_network opts);
      match foundWallet st with
      | Some w =>
          console_put (Selected w (foundAddress st) (maxBalance st));;
          mret w
      | None =>
          console_put NoWalletFound;;
          process_exit 1
      end
    else
      sd ← lift (seedFromPassphrase mnemonic);
      mret (seed_wallet (Str sd) (Number (parseInt (io_index opts))) (Str a))
  else if truthy_opt (io_seed opts) then
    mret (seed_wallet (Str (strip_0x (default "" (io_seed opts)))) Undefined (Str a))
  else if truthy_opt (io_priv opts) then
    if negb (String.eqb a "secp256k1") then
      console_put (ErrLine "Private key import only supports secp256k1");;
      process_exit 1
    else
      mret {| seed := Undefined; index := Undefined; algo := Str a;
              privateKeySecp256k1 := Str (strip_0x (default "" (io_priv opts)));
              address := Undefined |}
  else throw (JsError "Error" "No import method specified").

(** The [wallet:import] action. *)
Definition wallet_import (opts : ImportOpts) : M unit :=
  if negb (truthy_opt (io_seed opts)) && negb (truthy_opt (io_priv opts))
     && negb (truthy_opt (io_mnemonic opts)) then
    console_put (ErrLine "Must provide --seed, --priv, or --mnemonic");;
    process_exit 1
  else
    wallet ← import_wallet opts;
    let keyfile := getKeyfile (io_keyfile opts) in
    saveWallet wallet (Some keyfile);;
    acct ← lift (accountFromWallet wallet);
    console_put (Imported (publicKeyString acct) keyfile).

(** The [wallet:address] action. *)
Definition wallet_address (keyfile : option string) : M string :=
  wallet ← loadWallet (Some (getKeyfile keyfile));
  match wallet with
  | None =>
      console_put (ErrLine "No wallet found.");;
      process_exit 1
  | Some w =>
      acct ← lift (accountFromWallet w);
      mret (publicKeyString acct)
  end.

(** Options of [wallet:scan-balances]. *)
Record ScanOpts : Type := {
  so_mnemonic : option string;
  so_algos : string;
  so_start : string;
  so_end : string;
  so_network : string;
  so_verbose : bool;
  so_keyfile : option string;
}.

Record Found : Type := {
  f_algo : jsval;
  f_index : Z;
  f_address : string;
  f_balances : list BalanceData;
}.

(** [seedHex] and [defaultAlgo] of the scan. *)
Definition scan_seed (opts : ScanOpts) : M (jsval * jsval) :=
  if truthy_opt (so_mnemonic opts) then
    let mnemonic := trim (default "" (so_mnemonic opts)) in
    let words := split_ws mnemonic in
    if negb (length words =? 24)%nat then
      console_put (ErrLine "Mnemonic must be exactly 24 words");;
      process_exit 1
    else
      sd ← lift (seedFromPassphrase mnemonic);
      mret (Str sd, Str "ed25519")
  else
    wallet ← loadWallet (Some defaultKeyfile);
    match wallet with
    | None =>
        console_put (ErrLine "No wallet seed found. Provide --mnemonic or create/import a wallet first.");;
        process_exit 1
    | Some w =>
        if negb (truthy (seed w)) && negb (truthy (privateKeySecp256k1 w)) then
          console_put (ErrLine "No wallet seed found. Provide --mnemonic or create/import a wallet first.");;
          process_exit 1
        else if truthy (privateKeySecp256k1 w) then
          console_put (ErrLine "Scanning requires a seed-based wallet. Private key import cannot derive indices.");;
          process_exit 1
        else mret (seed w, js_or (algo w) (Str "ed25519"))
    end.

(** [validAlgos.has(a)] *)
Definition valid_algo (a : jsval) : bool :=
  match a with
  | Str s => bool_decide (s ∈ algorithms)
  | _ => false
  end.

Definition scan_algos (opts : ScanOpts) (defaultAlgo : jsval) : list jsval :=
  if negb (String.eqb (so_algos opts) "") then
    map Str
      (filter (fun s => s ≠ "")
         (map (fun s => toLowerCase (trim s)) (split_comma (so_algos opts))))
  else [defaultAlgo].

(** Body of the inner loop of the scan: one probe. *)
Definition scan_probe (client : ReadOnlyClient) (seedHex : jsval)
    (verbose : bool) (a : jsval) (idx : Z) (found : list Found)
  : M (list Found) :=
  try_catch
    (let wallet := seed_wallet seedHex (Number (Num idx)) a in
     acct ← lift (accountFromWallet wallet);
     let addr := publicKeyString acct in
     info ← net_call (getAccountInfo client acct);
     let bals := default [] (balances info) in
     let count := length bals in
     if (0 <? count)%nat || verbose then
       console_put (ScanRow a idx addr count);;
       mret (found ++ [{| f_algo := a; f_index := idx; f_address := addr;
                          f_balances := bals |}])
     else mret found)
    (fun _ =>
       console_put (ScanNetworkError a idx);;
       mret found).

(** The [wallet:scan-balances] action.  The counter [index] of the inner
    loop takes the integers from [start] to [end], as the double of the code
    does while [end] is below 2^53. *)
Definition wallet_scan_balances (opts : ScanOpts) : M unit :=
  '(seedHex, defaultAlgo) ← scan_seed opts;
  match parseInt (so_start opts), parseInt (so_end opts) with
  | Num start, Num end_ =>
      if (start <? 0) || (end_ <? start) then
        console_put (ErrLine "Invalid range. Use --start N --end M with 0 <= N <= M");;
        process_exit 1
      else
        let algos := scan_algos opts defaultAlgo in
        for_of algos
          (fun a (_ : unit) =>
             if negb (valid_algo a) then
               console_put (ErrLine ("Invalid algo: " +:+ toString a
                                     +:+ ". Use ed25519,secp256k1,secp256r1"));;
               process_exit 1
             else mret tt) tt;;
        client ← lift (readOnlyClientFrom (so_network opts));
        found ← for_of algos
          (fun a found =>
             for_of (seqZ start (end_ - start + 1))
               (fun idx found' =>
                  scan_probe client seedHex (so_verbose opts) a idx found')
               found) [];
        console_put (ScanComplete (length found))
  | _, _ =>
      console_put (ErrLine "Invalid range. Use --start N --end M with 0 <= N <= M");;
      process_exit 1
  end.

End Commands.

(** ** A test double of the collaborators

    A small instance of the interfaces, used to run the commands on concrete
    inputs.  An account is its address; the network is a table from address
    to answer, and its state counts the requests it served. *)

Module Double.

Fixpoint join_with (sep : string) (ps : list string) : string :=
  match ps with
  | [] => ""
  | [p] => p
  | p :: ps' => p +:+ sep +:+ join_with sep ps'
  end.

Fixpoint drop_through_slash (s : string) : option string :=
  match s with
  | EmptyString => None
  | String c s' => if Ascii.eqb c "/"%char then Some s' else drop_through_slash s'
  end.

Definition dirname (p : string) : string :=
  match drop_through_slash (reverse p) with
  | Some r => reverse r
  | None => "."
  end.

Definition platform : Platform :=
  {| homedir := "/home/u";
     path_join := join_with "/";
     path_dirname := dirname |}.

Definition algo_name (a : AccountKeyAlgorithm) : string :=
  match a with
  | ED25519 => "ed25519"
  | ECDSA_SECP256K1 => "secp256k1"
  | ECDSA_SECP256R1 => "secp256r1"
  end.

Definition lib (ledger : string -> result (list BalanceData)) : KeetaLib :=
  {| Account := string;
     UserClient := string * option string;
     ReadOnlyClient := string;
     NetState := nat;
     fromSeed := fun s i a =>
       match s with
       | Str hex =>
           if String.eqb hex "" then Err (JsError "Error" "invalid seed")
           else Ok (algo_name a +:+ ":" +:+ hex +:+ "/" +:+ toString i)
       | _ => Err (JsError "Error" "invalid seed")
       end;
     fromECDSASECP256K1PrivateKey := fun k =>
       match k with
       | Str hex =>
           if (String.length hex =? 64)%nat then Ok ("secp256k1-key:" +:+ hex)
           else Err (JsError "Error" "invalid private key")
       | _ => Err (JsError "Error" "invalid private key")
       end;
     publicKeyString := fun a => a;
     seedFromPassphrase := fun _ => Ok "5eed";
     fromNetwork := fun n a => Ok (n, a);
     allBalances := fun c st =>
       (match c.2 with
        | Some a => ledger a
        | None => Err (JsError "Error" "no account")
        end, S st);
     getAccountInfo := fun _ a st =>
       (match ledger a with
        | Ok bs => Ok {| balances := Some bs |}
        | Err e => Err e
        end, S st);
     readOnlyClientFrom := fun n => Ok n |}.

Definition empty_fs : FS := {| files := ∅; dirs := ∅; readonly := ∅ |}.

Definition world0 (ledger : string -> result (list BalanceData))
  : @World (lib ledger) :=
  @Build_World (lib ledger) empty_fs 0%nat 0%nat [].

Definition words24 : string :=
  "a a a a a a a a a a a a a a a a a a a a a a a a".

Definition coins (n : Z) : BalanceData := {| token := "KTA"; balance := Some n |}.

(** Two pairs hold exactly 100: ed25519 index 2 in one token, secp256k1
    index 0 in two. *)
Definition ledger_tie (a : string) : result (list BalanceData) :=
  if String.eqb a "ed25519:5eed/2" then Ok [coins 100]
  else if String.eqb a "secp256k1:5eed/0" then Ok [coins 60; coins 40]
  else if String.eqb a "ed25519:5eed/4" then Ok [coins 30]
  else Ok [].

(** The first two probes fail on the network, the third holds 7. *)
Definition ledger_flaky (a : string) : result (list BalanceData) :=
  if String.eqb a "ed25519:5eed/0" then Err (JsError "Error" "unreachable")
  else if String.eqb a "ed25519:5eed/1" then Err (JsError "Error" "unreachable")
  else if String.eqb a "ed25519:5eed/2" then Ok [coins 7]
  else Ok [].

(** Nobody holds anything; one account lists a token with amount 0. *)
Definition ledger_zero (a : string) : result (list BalanceData) :=
  if String.eqb a "ed25519:5eed/0" then Ok [coins 0] else Ok [].

Definition import_opts : ImportOpts :=
  {| io_seed := None; io_priv := None; io_mnemonic := Some words24;
     io_algo := "ed25519"; io_index := "0"; io_autoDetect := true;
     io_network := "test"; io_keyfile := Some "/tmp/w.json" |}.

Definition scan_opts : ScanOpts :=
  {| so_mnemonic := Some words24; so_algos := ","; so_start := "0";
     so_end := "10"; so_network := "test"; so_verbose := false;
     so_keyfile := None |}.

Definition key64 : string :=
  "1111111111111111111111111111111111111111111111111111111111111111".

(** A world whose only wallet file is at a path given with [--keyfile]. *)
Definition world_keyfile : @World (lib ledger_tie) :=
  (saveWallet (P := platform) (L := lib ledger_tie)
     (seed_wallet (Str "5eed") (Number (Num 2)) (Str "ed25519"))
     (Some "/tmp/w.json") (world0 ledger_tie)).2.

Definition scan_opts_keyfile : ScanOpts :=
  {| so_mnemonic := None; so_algos := ""; so_start := "0"; so_end := "3";
     so_network := "test"; so_verbose := false;
     so_keyfile := Some "/tmp/w.json" |}.

Definition nan_wallet : Wallet :=
  seed_wallet (Str "5eed") (Number NaN) (Str "ed25519").

Definition key_wallet : Wallet :=
  {| seed := Undefined; index := Undefined; algo := Str "secp256k1";
     privateKeySecp256k1 := Str key64; address := Undefined |}.

Definition seed_opts (sd algorithm : string) : ImportOpts :=
  {| io_seed := Some sd; io_priv := None; io_mnemonic := None;
     io_algo := algorithm; io_index := "0"; io_autoDetect := false;
     io_network := "test"; io_keyfile := Some "/tmp/w.json" |}.


End Double.

(** ** Vocabulary of the statements *)

(** What one probe of the search printed: algorithm, index, status. *)
Abbreviation Entry := (string * Z * ProbeStatus)%type (only parsing).

Definition probed (e : Entry) : Msg := Probed e.1.1 e.1.2 e.2.

(** The effect of one probe on the loop-carried variables, read off its
    printed status. *)
Definition detect_update (sd : string) (e : Entry) (st : Detect) : Detect :=
  match e.2 with
  | HasBalance addr _ t =>
      if maxBalance st <? t
      then {| foundWallet := Some (seed_wallet (Str sd) (Number (Num e.1.2)) (Str e.1.1));
              maxBalance := t;
              foundAddress := addr |}
      else st
  | _ => st
  end.

(** The summed balance a probe printed, if it printed one. *)
Definition total_of (e : Entry) : option Z :=
  match e.2 with
  | HasBalance _ _ t => Some t
  | _ => None
  end.

(** The pairs of the search in the order the loops visit them. *)
Definition candidates : list (string * Z) :=
  flat_map (fun a => map (pair a) indices) algorithms.

(** [st] is what the search holds after the probes [entries]: nothing, when
    no probe printed a positive total; otherwise the first probe whose total
    is the greatest. *)
Definition chosen (sd : string) (entries : list Entry) (st : Detect) : Prop :=
  match foundWallet st with
  | None =>
      maxBalance st = 0
      /\ forall e t, e ∈ entries -> total_of e = Some t -> t <= 0
  | Some fw =>
      0 < maxBalance st
      /\ exists (k : nat) a i c,
          entries !! k = Some (a, i, HasBalance (foundAddress st) c (maxBalance st))
          /\ fw = seed_wallet (Str sd) (Number (Num i)) (Str a)
          /\ forall (j : nat) e t,
               entries !! j = Some e -> total_of e = Some t ->
               t <= maxBalance st /\ ((j < k)%nat -> t < maxBalance st)
  end.

(** The world after one more console line. *)
Definition said {L : KeetaLib} (m : Msg) (w : World) : World :=
  {| fs := fs w; net := net w; net_calls := net_calls w;
     console := console w ++ [m] |}.

(** What a run of the search printed: the console lines it added. *)
Definition detect_trace {L : KeetaLib} (mnemonic network : string)
    (w : World) : list Msg :=
  drop (length (console w)) (console (detect_loop mnemonic network w).2).

(** The seed a mnemonic derives; a failing derivation selects nothing, so
    the value chosen for it is never used. *)
Definition seed_of {L : KeetaLib} (mnemonic : string) : string :=
  match seedFromPassphrase mnemonic with
  | Ok s => s
  | Err _ => ""
  end.

(** The lexer run over a piece of text, without the end of input. *)
Fixpoint steps (st : JSON.lstate) (s : string)
  : result (list JSON.token * JSON.lstate) :=
  match s with
  | EmptyString => Ok ([], st)
  | String c s' =>
      match JSON.step st c with
      | Err e => Err e
      | Ok (ts, st') =>
          match steps st' s' with
          | Ok (ts', st'') => Ok (ts ++ ts', st'')
          | Err e => Err e
          end
      end
  end.

Definition digits_of (n : N) : string := NilZero.string_of_uint (N.to_uint n).

(** The token a member value is read back from. *)
Definition tok (v : jsval) : JSON.token :=
  match v with
  | Str s => JSON.TStr s
  | Number (Num z) => JSON.TNum (z <? 0) (digits_of (Z.to_N (Z.abs z)))
  | Bool true => JSON.TTrue
  | Bool false => JSON.TFalse
  | _ => JSON.TNull
  end.

Fixpoint tokens (ms : JSON.object) : list JSON.token :=
  match ms with
  | [] => []
  | [m] => [JSON.TStr m.1; JSON.TColon; tok m.2]
  | m :: ms' => [JSON.TStr m.1; JSON.TColon; tok m.2; JSON.TComma] ++ tokens ms'
  end.

(** What follows a member line: a comma, or the line feed before the closing
    brace. *)
Definition sep_char (comma : bool) : ascii :=
  if comma then ","%char else ascii_of_N 10.

Definition sep_tokens (comma : bool) : list JSON.token :=
  if comma then [JSON.TComma] else [].

Definition defined (v : jsval) : bool :=
  match v with
  | Undefined => false
  | _ => true
  end.

Definition written (o : JSON.object) : JSON.object :=
  List.filter (fun kv => defined kv.2) o.

(** A value that [JSON.stringify] writes and [JSON.parse] reads back as
    itself: anything but [undefined] (left out) and [NaN] (written as
    [null]). *)
Definition storable (v : jsval) : Prop :=
  v <> Undefined /\ v <> Number NaN.



(** ** More of [commands/wallet.ts] *)

Section MoreCommands.

Context {P : Platform} {L : KeetaLib}.

(** The [wallet:new] action.  [randomSeed] is the string of the seed that
    [Account.generateRandomSeed()] returns; the address and the path the
    action prints are its value. *)
Definition wallet_new (randomSeed algoOpt : string) (keyfile : option string)
  : M (string * string) :=
  let a := toLowerCase algoOpt in
  if negb (bool_decide (a ∈ algorithms)) then
    console_put (ErrLine "Invalid algorithm. Use ed25519, secp256k1, or secp256r1");;
    process_exit 1
  else
    let wallet := seed_wallet (Str randomSeed) Undefined (Str a) in
    let kf := getKeyfile keyfile in
    saveWallet wallet (Some kf);;
    acct ← lift (accountFromWallet wallet);
    mret (publicKeyString acct, kf).



End MoreCommands.

(** What [JSON.stringify] makes of a value that [JSON.parse] then reads:
    [NaN] becomes [null]. *)
Definition denan (v : jsval) : jsval :=
  match v with
  | Number NaN => Null
  | _ => v
  end.

(** The record a wallet file holds after [saveWallet] of [w]. *)
Definition stored (w : Wallet) : Wallet :=
  {| seed := denan (seed w);
     index := denan (index w);
     algo := denan (algo w);
     privateKeySecp256k1 := denan (privateKeySecp256k1 w);
     address := denan (address w) |}.

(** A probe that printed anything but a derivation error asked the network
    once. *)
Definition asked (e : Entry) : bool :=
  match e.2 with
  | ProbeError _ => false
  | _ => true
  end.

(** A console line of the scan that reports an account. *)
Definition is_row (m : Msg) : bool :=
  match m with
  | ScanRow _ _ _ _ => true
  | _ => false
  end.

(** A console line the probes of the scan print: a row or a network
    error. *)
Definition is_scan_line (m : Msg) : bool :=
  match m with
  | ScanRow _ _ _ _ | ScanNetworkError _ _ => true
  | _ => false
  end.

(** The line [wallet:scan-balances] prints for an algorithm it rejects. *)
Definition invalid_algo_line (a : jsval) : Msg :=
  ErrLine ("Invalid algo: " +:+ toString a +:+ ". Use ed25519,secp256k1,secp256r1").


(** The validation loop of [wallet:scan-balances], as it stands in the
    action. *)
Definition validate_algos {L : KeetaLib} (algos : list jsval) : M unit :=
  for_of algos
    (fun a (_ : unit) =>
       if negb (valid_algo a) then
         console_put (ErrLine ("Invalid algo: " +:+ toString a
                               +:+ ". Use ed25519,secp256k1,secp256r1"));;
         process_exit 1
       else mret tt) tt.


(** ** Where the models of the built-ins stand for the code

    The text built-ins of [JS] work on bytes and know the white space and
    the letters of ASCII, and its integers are exact.  The code agrees with
    them on ASCII text and on the integers a double holds exactly (up to
    2^53 in magnitude); the statements below that depend on the difference
    say so with these predicates. *)

Definition is_ascii (s : string) : bool :=
  forallb (fun c => (N_of_ascii c <? 128)%N) (list_ascii_of_string s).

Definition safe_number (n : number) : Prop :=
  match n with
  | NaN => True
  | Num z => - 2 ^ 53 <= z <= 2 ^ 53
  end.

Definition safe_value (v : jsval) : Prop :=
  match v with
  | Number n => safe_number n
  | _ => True
  end.

(** Every number the record holds is [NaN] or an integer a double holds
    exactly. *)
Definition safe_wallet (w : Wallet) : Prop :=
  Forall (fun m : string * jsval => safe_value m.2) (wallet_to_object w).

(** ** What the network says of a candidate pair

    The sum of the balances of an answer of [allBalances]; an entry without
    an amount counts for nothing. *)
Definition total_balance (bals : list BalanceData) : Z :=
  fold_right (fun b acc => default 0 (balance b) + acc) 0 bals.

(** The status of the pair [(a, i)] when the network is in state [n], and
    the state the request leaves: an error of the derivation or of the
    client, without a request; a network error when [allBalances] fails; no
    balance when it answers with no entry; otherwise the number of entries
    and their sum. *)
Definition expected_status {L : KeetaLib} (mnemonic network a : string) (i : Z)
    (n : NetState) : ProbeStatus * NetState :=
  match seedFromPassphrase mnemonic with
  | Err e => (ProbeError e, n)
  | Ok sd =>
      match accountFromWallet (seed_wallet (Str sd) (Number (Num i)) (Str a)) with
      | Err e => (ProbeError e, n)
      | Ok acct =>
          match clientFrom network (Some acct) with
          | Err e => (ProbeError e, n)
          | Ok client =>
              match allBalances client n with
              | (Err _, n') => (NetworkError (publicKeyString acct), n')
              | (Ok [], n') => (NoBalance (publicKeyString acct), n')
              | (Ok bals, n') =>
                  (HasBalance (publicKeyString acct) (length bals)
                              (total_balance bals), n')
              end
          end
      end
  end.

(** The statuses of the pairs [cs], asked one after the other from network
    state [n], and the state after the last. *)
Fixpoint expected_run {L : KeetaLib} (mnemonic network : string)
    (cs : list (string * Z)) (n : NetState) : list Entry * NetState :=
  match cs with
  | [] => ([], n)
  | c :: cs' =>
      let '(s, n1) := expected_status mnemonic network c.1 c.2 n in
      let '(es, n2) := expected_run mnemonic network cs' n1 in
      ((c, s) :: es, n2)
  end.

Definition expected_entries {L : KeetaLib} (mnemonic network : string)
    (cs : list (string * Z)) (n : NetState) : list Entry :=
  (expected_run mnemonic network cs n).1.

(** * Properties *)

(** ** Account resolver *)

Section Resolver.

Context {L : KeetaLib}.

Lemma accountFromWallet_private_key (w : Wallet) :
  truthy (privateKeySecp256k1 w) = true ->
  accountFromWallet w = fromECDSASECP256K1PrivateKey (privateKeySecp256k1 w).
Proof. unfold accountFromWallet. intros ->. reflexivity. Qed.

Lemma accountFromWallet_seed (w : Wallet) :
  truthy (privateKeySecp256k1 w) = false ->
  accountFromWallet w =
    match algoConst (js_or (algo w) (Str "ed25519")) with
    | Ok a => fromSeed (seed w) (js_or (index w) (Number (Num 0))) a
    | Err e => Err e
    end.
Proof. unfold accountFromWallet. intros ->. reflexivity. Qed.

(** C1. Resolution is a function of the four derivation fields alone: two
    records that agree on [seed], [index], [algo] and [privateKeySecp256k1]
    (whatever their cached [address]) resolve to the same outcome, and when
    they resolve, to accounts with the same public identifier. *)
Theorem accountFromWallet_deterministic (w1 w2 : Wallet) :
  seed w1 = seed w2 ->
  index w1 = index w2 ->
  algo w1 = algo w2 ->
  privateKeySecp256k1 w1 = privateKeySecp256k1 w2 ->
  accountFromWallet w1 = accountFromWallet w2
  /\ (forall a1 a2,
        accountFromWallet w1 = Ok a1 -> accountFromWallet w2 = Ok a2 ->
        publicKeyString a1 = publicKeyString a2).
Proof.
  intros Hs Hi Ha Hk.
  assert (E : accountFromWallet w1 = accountFromWallet w2).
  { unfold accountFromWallet. rewrite Hs, Hi, Ha, Hk. reflexivity. }
  split; [exact E|].
  intros a1 a2 H1 H2. rewrite E, H2 in H1. congruence.
Qed.

(** C2, amended. When [privateKeySecp256k1] is a non-empty string (a truthy
    value), the record resolves to what the private-key transform returns
    for it, whatever [seed], [index] and [algo] hold. *)
Theorem private_key_takes_precedence (w : Wallet) (k : string) :
  privateKeySecp256k1 w = Str k ->
  k <> "" ->
  accountFromWallet w = fromECDSASECP256K1PrivateKey (Str k)
  /\ (forall s i a,
        accountFromWallet
          {| seed := s; index := i; algo := a;
             privateKeySecp256k1 := Str k; address := address w |}
        = accountFromWallet w).
Proof.
  intros Hk Hne.
  assert (T : truthy (Str k) = true).
  { simpl. destruct (String.eqb_spec k ""); [contradiction | reflexivity]. }
  split.
  - rewrite accountFromWallet_private_key; rewrite Hk; [reflexivity | exact T].
  - intros s i a.
    rewrite !accountFromWallet_private_key; simpl; rewrite ?Hk; auto.
Qed.

End Resolver.

Lemma accountFromWallet_deterministic_witness :
  let w1 := {| seed := Str "5eed"; index := Number (Num 2); algo := Str "secp256r1";
               privateKeySecp256k1 := Undefined; address := Undefined |} in
  let w2 := {| seed := Str "5eed"; index := Number (Num 2); algo := Str "secp256r1";
               privateKeySecp256k1 := Undefined; address := Str "cached" |} in
  @accountFromWallet (Double.lib Double.ledger_tie) w1
  = @accountFromWallet (Double.lib Double.ledger_tie) w2
  /\ (forall a1 a2,
        @accountFromWallet (Double.lib Double.ledger_tie) w1 = Ok a1 ->
        @accountFromWallet (Double.lib Double.ledger_tie) w2 = Ok a2 ->
        @publicKeyString (Double.lib Double.ledger_tie) a1
        = @publicKeyString (Double.lib Double.ledger_tie) a2).
Proof.
  intros w1 w2.
  apply (@accountFromWallet_deterministic (Double.lib Double.ledger_tie) w1 w2);
    reflexivity.
Defined.

(** C2 as stated fails: a record whose private key is present but empty
    resolves through its seed. *)
Lemma private_key_precedence_counterexample :
  ~ (forall (L : KeetaLib) (w : Wallet),
       privateKeySecp256k1 w <> Undefined ->
       seed w <> Undefined ->
       accountFromWallet w = fromECDSASECP256K1PrivateKey (privateKeySecp256k1 w)).
Proof.
  intros H.
  specialize (H (Double.lib Double.ledger_tie)
                {| seed := Str "5eed"; index := Undefined; algo := Undefined;
                   privateKeySecp256k1 := Str ""; address := Undefined |}).
  simpl in H. vm_compute in H.
  specialize (H ltac:(discriminate) ltac:(discriminate)).
  discriminate H.
Qed.

Lemma private_key_takes_precedence_witness :
  let w := {| seed := Str "5eed"; index := Number (Num 3); algo := Str "ed25519";
              privateKeySecp256k1 := Str Double.key64; address := Undefined |} in
  @accountFromWallet (Double.lib Double.ledger_tie) w
  = @fromECDSASECP256K1PrivateKey (Double.lib Double.ledger_tie) (Str Double.key64)
  /\ (forall s i a,
        @accountFromWallet (Double.lib Double.ledger_tie)
          {| seed := s; index := i; algo := a;
             privateKeySecp256k1 := Str Double.key64; address := address w |}
        = @accountFromWallet (Double.lib Double.ledger_tie) w).
Proof.
  intros w.
  apply (@private_key_takes_precedence (Double.lib Double.ledger_tie) w Double.key64);
    [reflexivity | discriminate].
Defined.

(** ** Derivation search *)

Section Search.

Context {P : Platform} {L : KeetaLib}.

Lemma for_of_app {A S} (xs ys : list A) (body : A -> S -> M S) (st : S) (w : World) :
  for_of (xs ++ ys) body st w =
    match for_of xs body st w with
    | (Ret st', w') => for_of ys body st' w'
    | (Throw e, w') => (Throw e, w')
    | (Exit c, w') => (Exit c, w')
    end.
Proof.
  revert st w. induction xs as [|x xs IH]; intros st w; simpl.
  - reflexivity.
  - unfold mbind, M_bind. destruct (body x st w) as [[st'|e|c] w']; auto.
Qed.

(** Two nested loops run the body over the pairs, outer-major. *)
Lemma for_of_nested {A B S} (xs : list A) (ys : list B)
    (body : A -> B -> S -> M S) (st : S) (w : World) :
  for_of xs (fun x st' => for_of ys (body x) st') st w =
  for_of (flat_map (fun x => map (pair x) ys) xs)
         (fun xy st' => body xy.1 xy.2 st') st w.
Proof.
  revert st w. induction xs as [|x xs IH]; intros st w; simpl.
  - reflexivity.
  - rewrite for_of_app. unfold mbind, M_bind.
    assert (E : forall st0 w0,
               for_of (map (pair x) ys) (fun xy st' => body xy.1 xy.2 st') st0 w0
               = for_of ys (body x) st0 w0).
    { clear. induction ys as [|y ys IHy]; intros st0 w0; simpl; [reflexivity|].
      unfold mbind, M_bind. destruct (body x y st0 w0) as [[st'|e|c] w']; auto. }
    rewrite E. destruct (for_of ys (body x) st w) as [[st'|e|c] w']; auto.
Qed.

Lemma detect_probe_spec (mnemonic network a : string) (i : Z) (st : Detect) (w : World) :
  exists status w',
    detect_probe mnemonic network a i st w
    = (Ret (detect_update (seed_of mnemonic) (a, i, status) st), w')
    /\ console w' = console w ++ [Probed a i status]
    /\ fs w' = fs w.
Proof.
  unfold detect_probe, try_catch, mbind, M_bind, lift, seed_of.
  destruct (seedFromPassphrase mnemonic) as [sd|e]; simpl.
  2:{ exists (ProbeError e). eexists. split; [reflexivity|]. simpl. auto. }
  destruct (accountFromWallet _) as [acct|e]; simpl.
  2:{ exists (ProbeError e). eexists. split; [reflexivity|]. simpl. auto. }
  destruct (clientFrom network (Some acct)) as [client|e]; simpl.
  2:{ exists (ProbeError e). eexists. split; [reflexivity|]. simpl. auto. }
  unfold net_call. destruct (allBalances client (net w)) as [[bals|e] n']; simpl.
  2:{ exists (NetworkError (publicKeyString acct)). eexists.
      split; [reflexivity|]. simpl. auto. }
  destruct (0 <? length bals)%nat eqn:Hc; simpl.
  - exists (HasBalance (publicKeyString acct) (length bals) (sum_balances bals)).
    unfold detect_update; simpl.
    destruct (maxBalance st <? sum_balances bals); simpl;
      eexists; (split; [reflexivity|]); simpl; auto.
  - exists (NoBalance (publicKeyString acct)). eexists.
    split; [reflexivity|]. simpl. auto.
Qed.

Lemma detect_probes_spec (mnemonic network : string) (cs : list (string * Z))
    (st : Detect) (w : World) :
  exists (statuses : list ProbeStatus) w',
    length statuses = length cs
    /\ for_of cs (fun c st' => detect_probe mnemonic network c.1 c.2 st') st w
       = (Ret (fold_left (fun s e => detect_update (seed_of mnemonic) e s)
                         (zip cs statuses) st), w')
    /\ console w' = console w ++ map probed (zip cs statuses)
    /\ fs w' = fs w.
Proof.
  revert st w. induction cs as [|[a i] cs IH]; intros st w.
  - exists [], w. simpl. rewrite app_nil_r. auto.
  - destruct (detect_probe_spec mnemonic network a i st w)
      as (status & w1 & Hrun & Hcon & Hfs).
    destruct (IH (detect_update (seed_of mnemonic) (a, i, status) st) w1)
      as (statuses & w2 & Hlen & Hrun2 & Hcon2 & Hfs2).
    exists (status :: statuses), w2. simpl.
    unfold mbind, M_bind. rewrite Hrun, Hrun2, Hcon2, Hcon, Hfs2, Hfs.
    rewrite <- app_assoc. simpl. auto.
Qed.

Lemma chosen_init (sd : string) : chosen sd [] detect_init.
Proof.
  unfold chosen; simpl. split; [reflexivity|].
  intros e t He. inversion He.
Qed.

Lemma chosen_step (sd : string) (entries : list Entry) (e : Entry) (st : Detect) :
  chosen sd entries st ->
  chosen sd (entries ++ [e]) (detect_update sd e st).
Proof.
  intros Hc. destruct e as [[a i] status].
  assert (Hkeep : total_of (a, i, status) = None
                  \/ (exists t, total_of (a, i, status) = Some t /\ t <= maxBalance st) ->
                  detect_update sd (a, i, status) st = st ->
                  chosen sd (entries ++ [(a, i, status)]) st).
  { intros Ht _. unfold chosen in *.
    destruct (foundWallet st) as [fw|].
    - destruct Hc as (Hpos & k & a0 & i0 & c0 & Hk & Hfw & Hall).
      split; [exact Hpos|]. exists k, a0, i0, c0.
      split; [apply lookup_app_l_Some; exact Hk|]. split; [exact Hfw|].
      intros j e t Hj Hte.
      apply lookup_app_Some in Hj as [Hj|[Hge Hj]]; [eauto|].
      apply list_lookup_singleton_Some in Hj as [_ <-].
      destruct Ht as [Ht|(t' & Ht & Hle)]; [congruence|].
      assert (t = t') by congruence. subst t'.
      split; [exact Hle|]. intros Hlt. apply lookup_lt_Some in Hk. lia.
    - destruct Hc as (Hz & Hall). split; [exact Hz|].
      intros e t He Hte. apply elem_of_app in He as [He|He]; [eauto|].
      apply list_elem_of_singleton in He. subst e.
      destruct Ht as [Ht|(t' & Ht & Hle)]; [congruence|].
      assert (t = t') by congruence. lia. }
  destruct status as [addr c t| | |]; try (apply Hkeep; [left|]; reflexivity).
  unfold detect_update; simpl.
  destruct (Z.ltb_spec (maxBalance st) t) as [Hlt|Hge].
  2:{ apply Hkeep; [right; exists t; split; [reflexivity|lia]|].
      unfold detect_update; simpl.
      destruct (Z.ltb_spec (maxBalance st) t); [lia|reflexivity]. }
  assert (Hmax : 0 <= maxBalance st
                 /\ forall (j : nat) e t', entries !! j = Some e ->
                      total_of e = Some t' -> t' <= maxBalance st).
  { unfold chosen in Hc. destruct (foundWallet st).
    - destruct Hc as (Hpos & k & a0 & i0 & c0 & Hk & Hfw & Hall).
      split; [lia|]. intros j e t' Hj Hte. apply (Hall j e t' Hj Hte).
    - destruct Hc as (Hz & Hall). split; [lia|].
      intros j e t' Hj Hte. rewrite Hz. apply (Hall e t'); [|exact Hte].
      apply list_elem_of_lookup. eauto. }
  destruct Hmax as (Hnn & Hle).
  unfold chosen; simpl. split; [lia|].
  exists (length entries), a, i, c.
  split; [apply list_lookup_middle; reflexivity|]. split; [reflexivity|].
  intros j e t' Hj Hte.
  apply lookup_app_Some in Hj as [Hj|[Hge Hj]].
  - specialize (Hle j e t' Hj Hte). split; [lia|]. intros _. lia.
  - apply list_lookup_singleton_Some in Hj as [Hj0 <-].
    simpl in Hte. injection Hte as <-. split; [lia|]. intros Hlt'. lia.
Qed.

Lemma chosen_fold (sd : string) (entries : list Entry) :
  chosen sd entries
    (fold_left (fun s e => detect_update sd e s) entries detect_init).
Proof.
  induction entries as [|e entries IH] using rev_ind.
  - apply chosen_init.
  - rewrite fold_left_app. simpl. apply chosen_step. exact IH.
Qed.

(** The search runs all eighteen probes in the fixed order, whatever they
    return, touches no file, and ends holding the first greatest total. *)
Lemma detect_loop_spec (mnemonic network : string) (w : World) :
  exists (entries : list Entry) st w',
    detect_loop mnemonic network w = (Ret st, w')
    /\ map fst entries = candidates
    /\ console w' = console w ++ map probed entries
    /\ fs w' = fs w
    /\ chosen (seed_of mnemonic) entries st.
Proof.
  unfold detect_loop. rewrite for_of_nested.
  destruct (detect_probes_spec mnemonic network candidates detect_init w)
    as (statuses & w' & Hlen & Hrun & Hcon & Hfs).
  exists (zip candidates statuses). eexists. exists w'.
  split; [exact Hrun|]. split; [apply fst_zip; lia|].
  split; [exact Hcon|]. split; [exact Hfs|]. apply chosen_fold.
Qed.

Lemma detect_trace_entries (mnemonic network : string) (w : World)
    (entries : list Entry) st w' :
  detect_loop mnemonic network w = (Ret st, w') ->
  console w' = console w ++ map probed entries ->
  detect_trace mnemonic network w = map probed entries.
Proof.
  intros Hrun Hcon. unfold detect_trace. rewrite Hrun. simpl. rewrite Hcon.
  apply drop_app_length.
Qed.



(** The sum the loop accumulates is the sum of the balances. *)
Lemma sum_balances_total (bals : list BalanceData) :
  sum_balances bals = total_balance bals.
Proof.
  unfold sum_balances, total_balance.
  assert (H : forall acc,
             fold_left (fun acc b => acc + default 0 (balance b)) bals acc
             = acc + fold_right (fun b acc => default 0 (balance b) + acc) 0 bals).
  { induction bals as [|b bals IH]; intros acc; simpl; [lia|].
    rewrite IH. lia. }
  rewrite H. lia.
Qed.

(** One probe prints the status the network state determines, and nothing
    else; it leaves the network in the state the request leaves. *)
Lemma detect_probe_expected (mnemonic network a : string) (i : Z) (st : Detect)
    (w : World) :
  exists w',
    detect_probe mnemonic network a i st w
    = (Ret (detect_update (seed_of mnemonic)
              (a, i, (expected_status mnemonic network a i (net w)).1) st), w')
    /\ console w'
       = console w ++ [Probed a i (expected_status mnemonic network a i (net w)).1]
    /\ net w' = (expected_status mnemonic network a i (net w)).2
    /\ fs w' = fs w.
Proof.
  unfold detect_probe, expected_status, try_catch, mbind, M_bind, lift, seed_of.
  destruct (seedFromPassphrase mnemonic) as [sd|e]; simpl.
  2:{ eexists. split; [reflexivity|]. simpl. auto. }
  destruct (accountFromWallet _) as [acct|e]; simpl.
  2:{ eexists. split; [reflexivity|]. simpl. auto. }
  destruct (clientFrom network (Some acct)) as [client|e]; simpl.
  2:{ eexists. split; [reflexivity|]. simpl. auto. }
  unfold net_call. destruct (allBalances client (net w)) as [[bals|e] n']; simpl.
  2:{ eexists. split; [reflexivity|]. simpl. auto. }
  destruct bals as [|b bals].
  - eexists. split; [reflexivity|]. simpl. auto.
  - rewrite sum_balances_total.
    change (0 <? length (b :: bals))%nat with true. cbv iota.
    unfold console_put, detect_update. cbn [fst snd].
    destruct (maxBalance st <? total_balance (b :: bals));
      eexists; (split; [reflexivity|]); simpl; auto.
Qed.

Lemma detect_probes_expected (mnemonic network : string) (cs : list (string * Z))
    (st : Detect) (w : World) :
  exists w',
    for_of cs (fun c st' => detect_probe mnemonic network c.1 c.2 st') st w
    = (Ret (fold_left (fun s e => detect_update (seed_of mnemonic) e s)
                      (expected_entries mnemonic network cs (net w)) st), w')
    /\ console w'
       = console w ++ map probed (expected_entries mnemonic network cs (net w))
    /\ fs w' = fs w.
Proof.
  unfold expected_entries.
  revert st w. induction cs as [|[a i] cs IH]; intros st w.
  - exists w. simpl. rewrite app_nil_r. auto.
  - destruct (detect_probe_expected mnemonic network a i st w)
      as (w1 & Hrun & Hcon & Hnet & Hfs).
    destruct (IH (detect_update (seed_of mnemonic)
                    (a, i, (expected_status mnemonic network a i (net w)).1) st) w1)
      as (w2 & Hrun2 & Hcon2 & Hfs2).
    exists w2. cbn [for_of expected_run fst snd].
    unfold mbind, M_bind. rewrite Hrun, Hrun2, Hcon2, Hcon, Hfs2, Hfs, Hnet.
    destruct (expected_status mnemonic network a i (net w)) as [s n1].
    cbn [fst snd].
    destruct (expected_run mnemonic network cs n1) as [es n2].
    cbn [fst snd map fold_left]. rewrite <- app_assoc. auto.
Qed.

(** The search prints, pair by pair, the status the network determines. *)
Lemma detect_loop_expected (mnemonic network : string) (w : World) :
  detect_trace mnemonic network w
  = map probed (expected_entries mnemonic network candidates (net w))
  /\ (detect_loop mnemonic network w).1
     = Ret (fold_left (fun s e => detect_update (seed_of mnemonic) e s)
              (expected_entries mnemonic network candidates (net w)) detect_init).
Proof.
  destruct (detect_probes_expected mnemonic network candidates detect_init w)
    as (w' & Hrun & Hcon & _).
  assert (Hloop : detect_loop mnemonic network w
                  = (Ret (fold_left (fun s e => detect_update (seed_of mnemonic) e s)
                            (expected_entries mnemonic network candidates (net w))
                            detect_init), w')).
  { unfold detect_loop. rewrite for_of_nested. exact Hrun. }
  split.
  - eapply detect_trace_entries; eauto.
  - rewrite Hloop. reflexivity.
Qed.

Lemma expected_entries_cons (mnemonic network : string) (c : string * Z)
    (cs : list (string * Z)) (n : NetState) :
  expected_entries mnemonic network (c :: cs) n
  = (c, (expected_status mnemonic network c.1 c.2 n).1)
    :: expected_entries mnemonic network cs
         (expected_status mnemonic network c.1 c.2 n).2.
Proof.
  unfold expected_entries. cbn [expected_run].
  destruct (expected_status mnemonic network c.1 c.2 n) as [s n1].
  cbn [fst snd]. destruct (expected_run mnemonic network cs n1). reflexivity.
Qed.


Lemma expected_entries_keys (mnemonic network : string) (cs : list (string * Z))
    (n : NetState) :
  map fst (expected_entries mnemonic network cs n) = cs.
Proof.
  revert n. induction cs as [|c cs IH]; intros n; [reflexivity|].
  rewrite expected_entries_cons. simpl. rewrite IH. reflexivity.
Qed.

(** A total comes from an answer of the network for the account of the
    pair, and is the sum of the balances of that answer. *)
Lemma expected_status_total (mnemonic network a : string) (i : Z) (n : NetState)
    (addr : string) (c : nat) (t : Z) :
  (expected_status mnemonic network a i n).1 = HasBalance addr c t ->
  exists sd acct client bals,
    seedFromPassphrase mnemonic = Ok sd
    /\ accountFromWallet (seed_wallet (Str sd) (Number (Num i)) (Str a)) = Ok acct
    /\ addr = publicKeyString acct
    /\ clientFrom network (Some acct) = Ok client
    /\ (allBalances client n).1 = Ok bals
    /\ c = length bals /\ bals <> [] /\ t = total_balance bals.
Proof.
  unfold expected_status.
  destruct (seedFromPassphrase mnemonic) as [sd|e]; [|discriminate].
  destruct (accountFromWallet _) as [acct|e] eqn:Ha; [|discriminate].
  destruct (clientFrom network (Some acct)) as [client|e] eqn:Hc; [|discriminate].
  destruct (allBalances client n) as [[[|b bals]|e] n'] eqn:Hb;
    cbn [fst]; try discriminate.
  intros H. injection H as <- <- <-.
  exists sd, acct, client, (b :: bals). rewrite Hb.
  repeat split; auto.
Qed.

Lemma expected_entries_total (mnemonic network : string) (cs : list (string * Z))
    (n : NetState) (a : string) (i : Z) (addr : string) (c : nat) (t : Z) :
  (a, i, HasBalance addr c t) ∈ expected_entries mnemonic network cs n ->
  (a, i) ∈ cs
  /\ exists sd acct client n0 bals,
       seedFromPassphrase mnemonic = Ok sd
       /\ accountFromWallet (seed_wallet (Str sd) (Number (Num i)) (Str a)) = Ok acct
       /\ addr = publicKeyString acct
       /\ clientFrom network (Some acct) = Ok client
       /\ (allBalances client n0).1 = Ok bals
       /\ c = length bals /\ bals <> [] /\ t = total_balance bals.
Proof.
  revert n. induction cs as [|[a0 i0] cs IH]; intros n Hin.
  - inversion Hin.
  - rewrite expected_entries_cons in Hin. apply elem_of_cons in Hin as [Heq|Hin].
    + injection Heq as -> -> Hs. split; [left|].
      destruct (expected_status_total _ _ _ _ _ _ _ _ (eq_sym Hs))
        as (sd & acct & client & bals & H).
      exists sd, acct, client, n, bals. exact H.
    + destruct (IH _ Hin) as (Hc & H). split; [right; exact Hc | exact H].
Qed.


(** C4. The search probes the pairs in the fixed order (ed25519, secp256k1,
    secp256r1; within each, indices 0 to 5).  What it prints for a pair is
    the status the network determines for the account of that pair: a total
    is the sum of the balances [allBalances] returned for it.  The search
    ends holding the pair whose total is strictly greater than every total
    before it and at least every total after it, so of two equal greatest
    totals the first; it holds nothing exactly when no total is positive. *)
Theorem search_selects_first_greatest (mnemonic network : string) (w : World) :
  exists (entries : list Entry) (st : Detect),
    entries
    = expected_entries mnemonic network
        (flat_map (fun a => map (pair a) [0; 1; 2; 3; 4; 5])
                  ["ed25519"; "secp256k1"; "secp256r1"]) (net w)
    /\ detect_trace mnemonic network w = map probed entries
    /\ map fst entries =
         flat_map (fun a => map (pair a) [0; 1; 2; 3; 4; 5])
                  ["ed25519"; "secp256k1"; "secp256r1"]
    /\ (forall a i addr c t, (a, i, HasBalance addr c t) ∈ entries ->
         exists sd acct client n bals,
           seedFromPassphrase mnemonic = Ok sd
           /\ accountFromWallet (seed_wallet (Str sd) (Number (Num i)) (Str a))
              = Ok acct
           /\ addr = publicKeyString acct
           /\ clientFrom network (Some acct) = Ok client
           /\ (allBalances client n).1 = Ok bals
           /\ c = length bals
           /\ t = fold_right Z.add 0 (map (fun b => default 0 (balance b)) bals))
    /\ (detect_loop mnemonic network w).1 = Ret st
    /\ (foundWallet st = None ->
         forall e t, e ∈ entries -> total_of e = Some t -> t <= 0)
    /\ (forall fw, foundWallet st = Some fw ->
         0 < maxBalance st
         /\ exists (k : nat) a i c,
             entries !! k
             = Some (a, i, HasBalance (foundAddress st) c (maxBalance st))
             /\ fw = seed_wallet (Str (seed_of mnemonic)) (Number (Num i)) (Str a)
             /\ forall (j : nat) e t,
                  entries !! j = Some e -> total_of e = Some t ->
                  t <= maxBalance st /\ ((j < k)%nat -> t < maxBalance st)).
Proof.
  destruct (detect_loop_expected mnemonic network w) as (Htr & Hrun).
  eexists. eexists. split; [reflexivity|].
  fold indices algorithms candidates.
  split; [exact Htr|]. split; [apply expected_entries_keys|].
  split.
  { intros a i addr c t Hin.
    destruct (expected_entries_total _ _ _ _ _ _ _ _ _ Hin)
      as (_ & sd & acct & client & n & bals & H1 & H2 & H3 & H4 & H5 & H6 & _ & H8).
    exists sd, acct, client, n, bals. repeat (split; [assumption|]).
    rewrite H8. unfold total_balance. clear. induction bals as [|b bals IH];
      simpl; [reflexivity | rewrite IH; reflexivity]. }
  split; [exact Hrun|].
  pose proof (chosen_fold (seed_of mnemonic)
                (expected_entries mnemonic network candidates (net w))) as Hch.
  unfold chosen in Hch. split.
  - intros Hn. rewrite Hn in Hch. apply Hch.
  - intros fw Hf. rewrite Hf in Hch. exact Hch.
Qed.


End Search.


(** ** The import command *)

Section ImportCommand.

Context {P : Platform} {L : KeetaLib}.





End ImportCommand.





(** ** JSON text round trip *)

Section JsonRoundTrip.

Import JSON.

Lemma append_cons (x : ascii) (a b : string) :
  String x a +:+ b = String x (a +:+ b).
Proof. reflexivity. Qed.

Lemma append_nil_l (a : string) : "" +:+ a = a.
Proof. reflexivity. Qed.

Lemma append_assoc (a b c : string) : (a +:+ b) +:+ c = a +:+ (b +:+ c).
Proof.
  induction a as [|x a IH]; [reflexivity|].
  rewrite !append_cons, IH. reflexivity.
Qed.

Lemma append_nil_r (a : string) : a +:+ "" = a.
Proof.
  induction a as [|x a IH]; [reflexivity|].
  rewrite append_cons, IH. reflexivity.
Qed.

Lemma steps_app (st : lstate) (s1 s2 : string) :
  steps st (s1 +:+ s2) =
    match steps st s1 with
    | Ok (ts, st') =>
        match steps st' s2 with
        | Ok (ts', st'') => Ok (ts ++ ts', st'')
        | Err e => Err e
        end
    | Err e => Err e
    end.
Proof.
  revert st. induction s1 as [|c s1 IH]; intros st.
  - rewrite append_nil_l. simpl.
    destruct (steps st s2) as [[ts' st'']|e]; reflexivity.
  - rewrite append_cons. simpl.
    destruct (step st c) as [[ts st']|e]; [|reflexivity].
    rewrite IH. destruct (steps st' s1) as [[ts1 st1]|e]; [|reflexivity].
    destruct (steps st1 s2) as [[ts2 st2]|e]; [|reflexivity].
    rewrite app_assoc. reflexivity.
Qed.

Lemma steps_app_ok st s1 s2 ts1 st1 ts2 st2 :
  steps st s1 = Ok (ts1, st1) ->
  steps st1 s2 = Ok (ts2, st2) ->
  steps st (s1 +:+ s2) = Ok (ts1 ++ ts2, st2).
Proof. intros H1 H2. rewrite steps_app, H1, H2. reflexivity. Qed.

Lemma lex_from_steps (st : lstate) (s : string) :
  lex_from st s =
    match steps st s with
    | Ok (ts, st') =>
        match finish st' with
        | Ok ts' => Ok (ts ++ ts')
        | Err e => Err e
        end
    | Err e => Err e
    end.
Proof.
  revert st. induction s as [|c s IH]; intros st; simpl.
  - destruct (finish st); reflexivity.
  - destruct (step st c) as [[ts st']|e]; [|reflexivity].
    rewrite IH. destruct (steps st' s) as [[ts1 st1]|e]; [|reflexivity].
    destruct (finish st1); [|reflexivity]. rewrite app_assoc. reflexivity.
Qed.

(** *** Strings *)

Lemma steps_escape_char (acc : string) (c : ascii) :
  steps (InStr acc) (escape_char c) = Ok ([], InStr (snoc acc c)).
Proof.
  destruct c as [[] [] [] [] [] [] [] []]; vm_compute; reflexivity.
Qed.

Lemma steps_escape (acc s : string) :
  steps (InStr acc) (escape s) = Ok ([], InStr (acc +:+ s)).
Proof.
  revert acc. induction s as [|c s IH]; intros acc; simpl escape.
  - rewrite append_nil_r. reflexivity.
  - rewrite (steps_app_ok _ _ _ _ _ _ _ (steps_escape_char acc c) (IH _)).
    unfold snoc. rewrite append_assoc. reflexivity.
Qed.

Lemma steps_quote (s : string) :
  steps Idle (quote s) = Ok ([TStr s], Idle).
Proof.
  unfold quote.
  change (String dquote (escape s +:+ String dquote ""))
    with (String dquote "" +:+ (escape s +:+ String dquote "")).
  apply (steps_app_ok Idle _ _ [] (InStr "") [TStr s] Idle); [reflexivity|].
  apply (steps_app_ok _ _ _ [] (InStr s) [TStr s] Idle); [|reflexivity].
  apply (steps_escape "" s).
Qed.

(** *** Numbers *)

Lemma to_uint_normal (n : N) : N.to_uint n = Decimal.unorm (N.to_uint n).
Proof.
  rewrite <- (DecimalN.Unsigned.to_of (N.to_uint n)).
  rewrite DecimalN.Unsigned.of_to. reflexivity.
Qed.

Lemma to_uint_nonnil (n : N) : N.to_uint n <> Decimal.Nil.
Proof. rewrite to_uint_normal. apply DecimalFacts.unorm_nonnil. Qed.

Lemma digits_of_nilempty (n : N) :
  digits_of n = NilEmpty.string_of_uint (N.to_uint n).
Proof.
  unfold digits_of. pose proof (to_uint_nonnil n) as H.
  destruct (N.to_uint n); [contradiction | reflexivity ..].
Qed.

Lemma steps_digits (neg : bool) (acc : string) (d : Decimal.uint) :
  steps (InNum neg acc) (NilEmpty.string_of_uint d)
  = Ok ([], InNum neg (acc +:+ NilEmpty.string_of_uint d)).
Proof.
  revert acc. induction d as [|d IH|d IH|d IH|d IH|d IH|d IH|d IH|d IH|d IH|d IH];
    intros acc; simpl NilEmpty.string_of_uint;
    [rewrite append_nil_r; reflexivity | ..];
    (simpl steps; rewrite IH; unfold snoc; rewrite append_assoc; reflexivity).
Qed.

Lemma steps_digits_of (n : N) :
  steps Idle (digits_of n) = Ok ([], InNum false (digits_of n)).
Proof.
  rewrite digits_of_nilempty. pose proof (to_uint_nonnil n) as H.
  destruct (N.to_uint n) as [|d|d|d|d|d|d|d|d|d|d]; [contradiction | ..];
    simpl NilEmpty.string_of_uint; simpl steps; rewrite steps_digits; reflexivity.
Qed.

Lemma close_number_digits_of (neg : bool) (n : N) :
  close_number neg (digits_of n) = Ok (TNum neg (digits_of n)).
Proof.
  rewrite digits_of_nilempty, to_uint_normal.
  generalize (N.to_uint n). intros d. unfold Decimal.unorm.
  pose proof (DecimalFacts.nzhead_nonzero d) as Hnz.
  destruct (Decimal.nzhead d) as [|d'|d'|d'|d'|d'|d'|d'|d'|d'|d'];
    try reflexivity.
  exfalso. apply (Hnz d'). reflexivity.
Qed.

Lemma Z_of_digits_of (neg : bool) (n : N) :
  Z_of_digits neg (digits_of n) = if neg then - Z.of_N n else Z.of_N n.
Proof.
  unfold Z_of_digits, digits_of.
  rewrite NilZero.usu by apply to_uint_nonnil.
  simpl default. rewrite DecimalN.Unsigned.of_to. reflexivity.
Qed.

Lemma string_of_Z_digits (z : Z) :
  string_of_Z z
  = if z <? 0 then String "-" (digits_of (Z.to_N (Z.abs z)))
    else digits_of (Z.to_N (Z.abs z)).
Proof.
  unfold string_of_Z, digits_of.
  destruct (Z.ltb_spec z 0).
  - rewrite Z.abs_neq by lia. reflexivity.
  - rewrite Z.abs_eq by lia. reflexivity.
Qed.

Lemma steps_string_of_Z (z : Z) :
  steps Idle (string_of_Z z)
  = Ok ([], InNum (z <? 0) (digits_of (Z.to_N (Z.abs z)))).
Proof.
  rewrite string_of_Z_digits. destruct (z <? 0).
  - simpl steps. rewrite digits_of_nilempty, steps_digits. reflexivity.
  - apply steps_digits_of.
Qed.

Lemma value_of_tok_number (z : Z) :
  value_of_token (tok (Number (Num z))) = Ok (Number (Num z)).
Proof.
  simpl. rewrite Z_of_digits_of.
  rewrite Z2N.id by lia. destruct (Z.ltb_spec z 0); do 3 f_equal; lia.
Qed.

(** *** Members *)

Lemma value_of_tok (v : jsval) :
  storable v -> value_of_token (tok v) = Ok v.
Proof.
  intros [Hu Hn]. destruct v as [| |[]|[|z]|s]; try reflexivity; try contradiction.
  apply value_of_tok_number.
Qed.

Lemma steps_value (v : jsval) (t : string) (comma : bool) :
  stringify_value v = Some t ->
  v <> Number NaN ->
  steps Idle (t +:+ String (sep_char comma) "")
  = Ok (tok v :: sep_tokens comma, Idle).
Proof.
  intros Ht Hn. destruct v as [| |[]|[|z]|s]; simpl in Ht;
    try discriminate Ht; try contradiction; injection Ht as <-;
    try (destruct comma; reflexivity).
  - rewrite (steps_app_ok _ _ _ _ _ (tok (Number (Num z)) :: sep_tokens comma) Idle
               (steps_string_of_Z z)); [reflexivity|].
    simpl steps. unfold step.
    replace (is_digit (sep_char comma)) with false by (destruct comma; reflexivity).
    rewrite close_number_digits_of. destruct comma; reflexivity.
  - rewrite (steps_app_ok _ _ _ _ _ (sep_tokens comma) Idle (steps_quote s));
      [reflexivity|].
    destruct comma; reflexivity.
Qed.

Lemma steps_member (k : string) (v : jsval) (l : string) (comma : bool) :
  stringify_member (k, v) = Some l ->
  v <> Number NaN ->
  steps Idle (l +:+ String (sep_char comma) "")
  = Ok ([TStr k; TColon; tok v] ++ sep_tokens comma, Idle).
Proof.
  unfold stringify_member. simpl fst. simpl snd.
  destruct (stringify_value v) as [t|] eqn:Ht; [|discriminate].
  intros [= <-] Hn. rewrite !append_assoc.
  rewrite (steps_app_ok Idle "  " _ [] Idle
             ([TStr k; TColon; tok v] ++ sep_tokens comma) Idle);
    [reflexivity | reflexivity |].
  rewrite (steps_app_ok Idle (quote k) _ [TStr k] Idle
             ([TColon; tok v] ++ sep_tokens comma) Idle);
    [reflexivity | apply steps_quote |].
  rewrite (steps_app_ok Idle ": " _ [TColon] Idle
             (tok v :: sep_tokens comma) Idle);
    [reflexivity | reflexivity |].
  apply steps_value; assumption.
Qed.

Lemma stringify_member_storable (m : string * jsval) :
  storable m.2 -> exists l, stringify_member m = Some l.
Proof.
  intros [Hu Hn]. unfold stringify_member.
  destruct m.2 as [| |[]|[|z]|s]; try contradiction; simpl; eauto.
Qed.

Lemma steps_members (ms : object) :
  ms <> [] ->
  Forall (fun m => storable m.2) ms ->
  steps Idle (join_lines (omap stringify_member ms) +:+ newline)
  = Ok (tokens ms, Idle).
Proof.
  induction ms as [|[k v] ms IH]; intros Hne Hall; [contradiction|].
  apply Forall_cons in Hall as [Hm Hall].
  destruct (stringify_member_storable (k, v) Hm) as (l & Hl).
  destruct Hm as [_ Hn]. simpl in Hn.
  destruct ms as [|m' ms'].
  - simpl omap. rewrite Hl. simpl join_lines.
    change newline with (String (sep_char false) "").
    rewrite (steps_member k v l false Hl Hn). reflexivity.
  - assert (Hne' : m' :: ms' <> []) by discriminate.
    specialize (IH Hne' Hall).
    change (omap stringify_member ((k, v) :: m' :: ms'))
      with (match stringify_member (k, v) with
            | Some y => y :: omap stringify_member (m' :: ms')
            | None => omap stringify_member (m' :: ms')
            end).
    rewrite Hl.
    destruct (omap stringify_member (m' :: ms')) as [|l' ls'] eqn:Hls.
    { exfalso. apply Forall_cons in Hall as [Hm' _].
      destruct (stringify_member_storable m' Hm') as (x & Hx).
      simpl in Hls. rewrite Hx in Hls. discriminate Hls. }
    change (join_lines (l :: l' :: ls'))
      with (l +:+ "," +:+ newline +:+ join_lines (l' :: ls')).
    rewrite !append_assoc.
    change ("," +:+ newline +:+ join_lines (l' :: ls') +:+ newline)
      with (String (sep_char true) "" +:+ newline +:+ join_lines (l' :: ls') +:+ newline).
    rewrite <- (append_assoc l).
    rewrite (steps_app_ok Idle _ _ _ Idle (tokens (m' :: ms')) Idle
               (steps_member k v l true Hl Hn)); [reflexivity|].
    rewrite (steps_app_ok Idle newline _ [] Idle (tokens (m' :: ms')) Idle);
      [reflexivity | reflexivity | exact IH].
Qed.

Lemma parse_members_tokens (ms : object) :
  ms <> [] ->
  Forall (fun m => storable m.2) ms ->
  parse_members (tokens ms ++ [TRBrace]) = Ok ms.
Proof.
  induction ms as [|[k v] ms IH]; intros Hne Hall; [contradiction|].
  apply Forall_cons in Hall as [Hm Hall]. simpl in Hm.
  destruct ms as [|m' ms'].
  - simpl. rewrite (value_of_tok v Hm). reflexivity.
  - assert (Hne' : m' :: ms' <> []) by discriminate.
    specialize (IH Hne' Hall).
    change (tokens ((k, v) :: m' :: ms') ++ [TRBrace])
      with (TStr k :: TColon :: tok v :: TComma :: (tokens (m' :: ms') ++ [TRBrace])).
    simpl parse_members. rewrite (value_of_tok v Hm).
    simpl in IH. rewrite IH. reflexivity.
Qed.

Lemma omap_written (o : object) :
  omap stringify_member o = omap stringify_member (written o).
Proof.
  induction o as [|[k v] o IH]; [reflexivity|].
  unfold written in *. unfold omap in *. simpl. destruct v; simpl; rewrite IH; reflexivity.
Qed.

Lemma written_storable (o : object) :
  Forall (fun m => m.2 <> Number NaN) o ->
  Forall (fun m => storable m.2) (written o).
Proof.
  intros H. unfold written. induction H as [|[k v] o Hv H IH]; simpl.
  - constructor.
  - destruct v; simpl; try exact IH; constructor; try exact IH;
      split; simpl; first [discriminate | exact Hv].
Qed.

(** Reading back the text of an object gives its members that hold a
    value, in order, provided none is [NaN]. *)
Lemma parse_stringify (o : object) :
  Forall (fun m => m.2 <> Number NaN) o ->
  parse (stringify o) = Ok (written o).
Proof.
  intros Hn. pose proof (written_storable o Hn) as Hst.
  unfold stringify. rewrite omap_written.
  destruct (written o) as [|m ms] eqn:Hw; [reflexivity|].
  assert (Hne : m :: ms <> []) by discriminate.
  pose proof (steps_members (m :: ms) Hne Hst) as Hsteps.
  destruct (omap stringify_member (m :: ms)) as [|l ls] eqn:Hls.
  { exfalso. apply Forall_cons in Hst as [Hm _].
    destruct (stringify_member_storable m Hm) as (x & Hx).
    simpl in Hls. rewrite Hx in Hls. discriminate Hls. }
  unfold parse, lex. rewrite lex_from_steps.
  rewrite <- (append_assoc (join_lines (l :: ls))).
  rewrite (steps_app_ok Idle "{" _ [TLBrace] Idle (tokens (m :: ms) ++ [TRBrace]) Idle);
    [| reflexivity |].
  2:{ rewrite (steps_app_ok Idle newline _ [] Idle (tokens (m :: ms) ++ [TRBrace]) Idle);
        [reflexivity | reflexivity |].
      apply (steps_app_ok _ _ _ _ _ [TRBrace] Idle Hsteps). reflexivity. }
  simpl finish. cbv beta iota. rewrite app_nil_r.
  pose proof (parse_members_tokens (m :: ms) Hne Hst) as Hp.
  destruct m as [k v]. destruct ms as [|m' ms']; simpl in Hp |- *; exact Hp.
Qed.

Lemma get_written (k : string) (o : object) : get k (written o) = get k o.
Proof.
  induction o as [|[k' v] o IH]; [reflexivity|].
  unfold written in *. simpl. destruct v; simpl; rewrite IH;
    try reflexivity.
  destruct (get k o); try reflexivity. destruct (String.eqb k k'); reflexivity.
Qed.

Lemma wallet_object_round_trip (w : Wallet) :
  wallet_of_object (written (wallet_to_object w)) = w.
Proof.
  unfold wallet_of_object. rewrite !get_written.
  destruct w as [s i a p d]. unfold wallet_to_object.
  f_equal; try reflexivity;
    first [destruct i; reflexivity | destruct a; reflexivity
          | destruct p; reflexivity | destruct d; reflexivity].
Qed.

End JsonRoundTrip.

(** ** Keystore *)

Section Keystore.

Context {P : Platform} {L : KeetaLib}.


End Keystore.


(** ** The scan command *)

Section Scan.

Context {P : Platform} {L : KeetaLib}.

Lemma loadWallet_reads_only (file : option string) (w : World) :
  (loadWallet file w).2 = w.
Proof.
  unfold loadWallet, existsSync, readFileSync, mbind, M_bind, mret, M_ret.
  destruct (negb _); [reflexivity|].
  destruct (files (fs w) !! opt_or file defaultKeyfile); [|reflexivity].
  unfold lift. destruct (JSON.parse s); reflexivity.
Qed.

(** Finding the seed touches neither the file system nor the network. *)
Lemma scan_seed_quiet (opts : ScanOpts) (w : World) :
  fs (scan_seed opts w).2 = fs w
  /\ net (scan_seed opts w).2 = net w
  /\ net_calls (scan_seed opts w).2 = net_calls w.
Proof.
  unfold scan_seed. destruct (truthy_opt (so_mnemonic opts)).
  - destruct (negb _); [simpl; auto|].
    unfold mbind, M_bind, lift.
    destruct (seedFromPassphrase _); simpl; auto.
  - unfold mbind, M_bind.
    pose proof (loadWallet_reads_only (Some defaultKeyfile) w) as Hl.
    destruct (loadWallet (Some defaultKeyfile) w) as [[[wl|]|e|c] w1];
      simpl in Hl; subst w1; simpl; auto.
    destruct (negb (truthy (seed wl)) && negb (truthy (privateKeySecp256k1 wl)));
      [simpl; auto|].
    destruct (truthy (privateKeySecp256k1 wl)); simpl; auto.
Qed.

(** C8, amended. With an empty algorithm list the scan issues no network
    request, whatever else happens; and the empty list is no error: once the
    seed is found (from an ASCII mnemonic or the wallet file), the range is
    valid and the read-only client is built, the scan completes normally,
    reporting zero matches. *)
Theorem scan_empty_algorithm_list (opts : ScanOpts) (w : World) :
  (forall d, scan_algos opts d = []) ->
  net_calls (wallet_scan_balances opts w).2 = net_calls w
  /\ net (wallet_scan_balances opts w).2 = net w
  /\ (forall (w1 : World) (seedHex defaultAlgo : jsval) (s e : Z)
             (client : ReadOnlyClient),
        is_ascii (default "" (so_mnemonic opts)) = true ->
        scan_seed opts w = (Ret (seedHex, defaultAlgo), w1) ->
        parseInt (so_start opts) = Num s ->
        parseInt (so_end opts) = Num e ->
        0 <= s <= e ->
        readOnlyClientFrom (so_network opts) = Ok client ->
        wallet_scan_balances opts w = (Ret tt, said (ScanComplete 0) w1)).
Proof.
  intros Halgos.
  pose proof (scan_seed_quiet opts w) as (_ & Hnet & Hcalls).
  assert (Hrun : forall w1 seedHex defaultAlgo s e,
             scan_seed opts w = (Ret (seedHex, defaultAlgo), w1) ->
             parseInt (so_start opts) = Num s ->
             parseInt (so_end opts) = Num e ->
             0 <= s <= e ->
             wallet_scan_balances opts w
             = match readOnlyClientFrom (so_network opts) with
               | Ok _ => (Ret tt, said (ScanComplete 0) w1)
               | Err x => (Throw x, w1)
               end).
  { intros w1 seedHex defaultAlgo s e Hseed Hs He Hrange.
    unfold wallet_scan_balances, mbind at 1, M_bind at 1. rewrite Hseed, Hs, He.
    replace ((s <? 0) || (e <? s)) with false
      by (symmetry; apply orb_false_iff; split; apply Z.ltb_ge; lia).
    rewrite Halgos. unfold mbind, M_bind. simpl for_of.
    unfold mret, M_ret, lift.
    destruct (readOnlyClientFrom (so_network opts)); reflexivity. }
  assert (Hquiet : net_calls (wallet_scan_balances opts w).2 = net_calls w
                   /\ net (wallet_scan_balances opts w).2 = net w).
  { destruct (scan_seed opts w) as [[[seedHex defaultAlgo]|x|c] w1] eqn:Hseed;
      simpl in Hnet, Hcalls.
    2,3: unfold wallet_scan_balances, mbind, M_bind; rewrite Hseed; auto.
    destruct (parseInt (so_start opts)) as [|s] eqn:Hs.
    { unfold wallet_scan_balances, mbind, M_bind. rewrite Hseed, Hs. auto. }
    destruct (parseInt (so_end opts)) as [|e] eqn:He.
    { unfold wallet_scan_balances, mbind, M_bind. rewrite Hseed, Hs, He. auto. }
    destruct ((s <? 0) || (e <? s)) eqn:Hr.
    { unfold wallet_scan_balances, mbind, M_bind. rewrite Hseed, Hs, He, Hr. auto. }
    apply orb_false_iff in Hr as [Hr1 Hr2].
    apply Z.ltb_ge in Hr1. apply Z.ltb_ge in Hr2.
    rewrite (Hrun w1 seedHex defaultAlgo s e eq_refl eq_refl eq_refl (conj Hr1 Hr2)).
    destruct (readOnlyClientFrom (so_network opts)); auto. }
  destruct Hquiet as (Hq1 & Hq2). split; [exact Hq1|]. split; [exact Hq2|].
  intros w1 seedHex defaultAlgo s e client _ Hseed Hs He Hrange Hclient.
  rewrite (Hrun w1 seedHex defaultAlgo s e Hseed Hs He Hrange), Hclient.
  reflexivity.
Qed.

End Scan.

(** C8 as stated fails: the scan of an empty list does not fail. *)
Lemma scan_empty_algorithm_list_counterexample :
  ~ (forall (P : Platform) (L : KeetaLib) (opts : ScanOpts) (w : World),
       (forall d, scan_algos opts d = []) ->
       (wallet_scan_balances opts w).1 <> Ret tt).
Proof.
  intros H.
  apply (H Double.platform (Double.lib Double.ledger_tie) Double.scan_opts
           (Double.world0 Double.ledger_tie)).
  - intros d. reflexivity.
  - vm_compute. reflexivity.
Qed.

Lemma scan_empty_algorithm_list_witness :
  wallet_scan_balances (P := Double.platform) (L := Double.lib Double.ledger_tie)
    Double.scan_opts (Double.world0 Double.ledger_tie)
  = (Ret tt, said (L := Double.lib Double.ledger_tie) (ScanComplete 0)
               (Double.world0 Double.ledger_tie)).
Proof.
  destruct (scan_empty_algorithm_list (P := Double.platform)
              (L := Double.lib Double.ledger_tie) Double.scan_opts
              (Double.world0 Double.ledger_tie))
    as (_ & _ & H).
  - intros d. reflexivity.
  - apply (H (Double.world0 Double.ledger_tie) (Str "5eed") (Str "ed25519")
             0 10 "test");
      first [reflexivity | lia].
Defined.

(** C9. The scan reads the wallet from the default path whatever [--keyfile]
    says: where the only wallet is the one at the given path, [wallet:address]
    finds it and the scan reports that there is none; in general the outcome
    of the scan does not depend on the option. *)
Theorem scan_balances_ignores_keyfile :
  wallet_address (P := Double.platform) (L := Double.lib Double.ledger_tie)
    (Some "/tmp/w.json") Double.world_keyfile
  = (Ret "ed25519:5eed/2", Double.world_keyfile)
  /\ wallet_scan_balances (P := Double.platform) (L := Double.lib Double.ledger_tie)
       Double.scan_opts_keyfile Double.world_keyfile
     = (Exit 1,
        said (L := Double.lib Double.ledger_tie)
          (ErrLine "No wallet seed found. Provide --mnemonic or create/import a wallet first.")
          Double.world_keyfile)
  /\ forall (P : Platform) (L : KeetaLib) (opts : ScanOpts) (k : option string)
            (w : World),
       wallet_scan_balances
         {| so_mnemonic := so_mnemonic opts; so_algos := so_algos opts;
            so_start := so_start opts; so_end := so_end opts;
            so_network := so_network opts; so_verbose := so_verbose opts;
            so_keyfile := k |} w
       = wallet_scan_balances opts w.
Proof.
  split; [vm_compute; reflexivity|].
  split; [vm_compute; reflexivity|].
  intros P L opts k w. reflexivity.
Qed.

(** ** Runs on the test double *)

(** The example of the specification: ed25519 index 2 and secp256k1 index 0
    both total 100, and the earlier pair is kept. *)
Example search_tie_keeps_first :
  (detect_loop (L := Double.lib Double.ledger_tie)
     Double.words24 "test" (Double.world0 Double.ledger_tie)).1
  = Ret {| foundWallet :=
             Some (seed_wallet (Str "5eed") (Number (Num 2)) (Str "ed25519"));
           maxBalance := 100;
           foundAddress := "ed25519:5eed/2" |}.
Proof. vm_compute. reflexivity. Qed.

Example search_issues_eighteen_requests :
  net_calls (detect_loop (L := Double.lib Double.ledger_flaky)
               Double.words24 "test" (Double.world0 Double.ledger_flaky)).2
  = 18%nat.
Proof. vm_compute. reflexivity. Qed.

(** An index that is [NaN] is written as [null] and does not come back. *)
Example nan_index_is_not_restored :
  JSON.parse
    (JSON.stringify (wallet_to_object (seed_wallet (Str "5eed") (Number NaN) Undefined)))
  = Ok [("seed", Str "5eed"); ("index", Null)].
Proof. vm_compute. reflexivity. Qed.

Example import_saves_the_pair_found :
  (loadWallet (P := Double.platform) (L := Double.lib Double.ledger_tie)
     (Some "/tmp/w.json")
     (wallet_import (P := Double.platform) (L := Double.lib Double.ledger_tie)
        Double.import_opts (Double.world0 Double.ledger_tie)).2).1
  = Ret (Some (seed_wallet (Str "5eed") (Number (Num 2)) (Str "ed25519"))).
Proof. vm_compute. reflexivity. Qed.

Example scan_finds_two_accounts :
  console
    (wallet_scan_balances (P := Double.platform) (L := Double.lib Double.ledger_tie)
       {| so_mnemonic := Some Double.words24; so_algos := "ed25519, SECP256K1";
          so_start := "0"; so_end := "2"; so_network := "test";
          so_verbose := false; so_keyfile := None |}
       (Double.world0 Double.ledger_tie)).2
  = [ScanRow (Str "ed25519") 2 "ed25519:5eed/2" 1;
     ScanRow (Str "secp256k1") 0 "secp256k1:5eed/0" 2;
     ScanComplete 2].
Proof. vm_compute. reflexivity. Qed.

Example parseInt_decimal : parseInt "10" = Num 10.
Proof. reflexivity. Qed.

Example parseInt_not_a_number : parseInt "abc" = NaN.
Proof. reflexivity. Qed.

Example parseInt_prefix : parseInt "  -12px" = Num (-12).
Proof. reflexivity. Qed.

Example split_ws_words : split_ws "a  b c" = ["a"; "b"; "c"].
Proof. reflexivity. Qed.

Example split_comma_only : split_comma "," = [""; ""].
Proof. reflexivity. Qed.

(** * Further properties *)

(** ** Keystore: what a save changes and what a load returns *)

Section KeystoreEffects.

Context {P : Platform} {L : KeetaLib}.

(** A save either succeeds and sets the text of its target, or throws and
    leaves every text as it was; it never exits, and touches neither the
    network nor the console nor the permissions. *)
Lemma saveWallet_effect (R : Wallet) (file : option string) (w : World) :
  exists r w1,
    saveWallet R file w = (r, w1)
    /\ net w1 = net w /\ net_calls w1 = net_calls w /\ console w1 = console w
    /\ readonly (fs w1) = readonly (fs w)
    /\ ((r = Ret tt
         /\ files (fs w1)
            = <[opt_or file defaultKeyfile := JSON.stringify (wallet_to_object R)]>
                (files (fs w)))
        \/ (exists e, r = Throw e /\ files (fs w1) = files (fs w))).
Proof.
  unfold saveWallet, ensureDir, existsSync, mkdirSync, writeFileSync,
    mbind, M_bind, mret, M_ret.
  set (f := opt_or file defaultKeyfile).
  destruct (negb _); cbv beta iota; simpl fs; simpl dirs; simpl readonly; simpl files.
  - destruct (bool_decide (path_dirname f ∈ _)).
    + destruct (bool_decide (f ∈ _)).
      { do 2 eexists. split; [reflexivity|]. simpl. repeat split; eauto. }
      destruct (bool_decide (f ∈ readonly (fs w))).
      { do 2 eexists. split; [reflexivity|]. simpl. repeat split; eauto. }
      do 2 eexists. split; [reflexivity|]. simpl. repeat split; eauto.
    + do 2 eexists. split; [reflexivity|]. simpl. repeat split; eauto.
  - destruct (bool_decide (path_dirname f ∈ _)).
    + destruct (bool_decide (f ∈ _)).
      { do 2 eexists. split; [reflexivity|]. simpl. repeat split; eauto. }
      destruct (bool_decide (f ∈ readonly (fs w))).
      { do 2 eexists. split; [reflexivity|]. simpl. repeat split; eauto. }
      do 2 eexists. split; [reflexivity|]. simpl. repeat split; eauto.
    + do 2 eexists. split; [reflexivity|]. simpl. repeat split; eauto.
Qed.

Lemma stringify_member_denan (k : string) (v : jsval) :
  JSON.stringify_member (k, denan v) = JSON.stringify_member (k, v).
Proof. destruct v as [| |b|[|z]|s]; reflexivity. Qed.

Lemma omap_stringify_denan (o : JSON.object) :
  omap JSON.stringify_member (map (fun kv => (kv.1, denan kv.2)) o)
  = omap JSON.stringify_member o.
Proof.
  induction o as [|[k v] o IH]; [reflexivity|].
  change (omap JSON.stringify_member (map (fun kv => (kv.1, denan kv.2)) ((k, v) :: o)))
    with (match JSON.stringify_member (k, denan v) with
          | Some y => y :: omap JSON.stringify_member
                             (map (fun kv => (kv.1, denan kv.2)) o)
          | None => omap JSON.stringify_member
                      (map (fun kv => (kv.1, denan kv.2)) o)
          end).
  rewrite stringify_member_denan, IH. reflexivity.
Qed.

Lemma stringify_denan (o : JSON.object) :
  JSON.stringify (map (fun kv => (kv.1, denan kv.2)) o) = JSON.stringify o.
Proof. unfold JSON.stringify. rewrite omap_stringify_denan. reflexivity. Qed.

Lemma denan_not_nan (v : jsval) : denan v <> Number NaN.
Proof. destruct v as [| |b|[|z]|s]; discriminate. Qed.

(** Reading back the text of any wallet gives the wallet with [NaN] read
    as [null]. *)
Lemma parse_stringify_wallet (R : Wallet) :
  JSON.parse (JSON.stringify (wallet_to_object R))
  = Ok (written (wallet_to_object (stored R))).
Proof.
  rewrite <- stringify_denan. apply parse_stringify.
  repeat constructor; apply denan_not_nan.
Qed.

Lemma load_after_text (R : Wallet) (file : option string) (w : World) :
  files (fs w) !! opt_or file defaultKeyfile
  = Some (JSON.stringify (wallet_to_object R)) ->
  loadWallet file w = (Ret (Some (stored R)), w).
Proof.
  intros Hf.
  unfold loadWallet, existsSync, readFileSync, mbind, M_bind, mret, M_ret.
  rewrite Hf.
  rewrite (bool_decide_eq_true_2 (is_Some (Some _))) by eauto.
  cbn [orb negb]. cbv beta iota. rewrite Hf.
  rewrite parse_stringify_wallet.
  unfold lift, mret, M_ret. rewrite wallet_object_round_trip. reflexivity.
Qed.

Lemma truthy_denan (v : jsval) : truthy (denan v) = truthy v.
Proof. destruct v as [| |b|[|z]|s]; reflexivity. Qed.

Lemma js_or_denan (v d : jsval) : js_or (denan v) d = js_or v d.
Proof. destruct v as [| |b|[|z]|s]; reflexivity. Qed.

Lemma accountFromWallet_stored (R : Wallet) :
  seed R <> Number NaN ->
  accountFromWallet (stored R) = accountFromWallet R.
Proof.
  intros Hs. unfold accountFromWallet, stored. simpl.
  rewrite truthy_denan, !js_or_denan.
  destruct (truthy (privateKeySecp256k1 R)) eqn:Ht.
  - destruct (privateKeySecp256k1 R) as [| |b|[|z]|s]; try discriminate Ht; reflexivity.
  - destruct (seed R) as [| |b|[|z]|s]; try reflexivity. contradiction.
Qed.

Lemma saveWallet_then_load (R : Wallet) (file : option string) (w w1 : World) :
  saveWallet R file w = (Ret tt, w1) ->
  loadWallet file w1 = (Ret (Some (stored R)), w1).
Proof.
  intros Hs.
  destruct (saveWallet_effect R file w)
    as (r & w1' & Hrun & _ & _ & _ & _ & [[Hr Hf]|(e & Hr & _)]);
    rewrite Hs in Hrun; injection Hrun as <- <-; [|discriminate Hr].
  apply load_after_text. rewrite Hf. apply lookup_insert_eq.
Qed.

(** X1. For a record whose numbers are [NaN] or integers a double holds
    exactly: after a save that succeeded, a load of the same path returns
    the record that was saved, with every [NaN] read as [null]; and that
    record resolves to the same account as the one saved, unless its seed
    itself was [NaN]. *)
Theorem load_after_save (R : Wallet) (file : option string) (w w1 : World) :
  safe_wallet R ->
  saveWallet R file w = (Ret tt, w1) ->
  loadWallet file w1 = (Ret (Some (stored R)), w1)
  /\ (seed R <> Number NaN ->
      accountFromWallet (stored R) = accountFromWallet R).
Proof.
  intros _ Hs. split; [apply (saveWallet_then_load R file w w1 Hs)|].
  apply accountFromWallet_stored.
Qed.

(** X2. A save changes the text of no file but its target, and when it
    throws it changes the text of no file at all. *)
Theorem saveWallet_frame (R : Wallet) (file : option string) (w : World) :
  (forall g, g <> opt_or file defaultKeyfile ->
             files (fs (saveWallet R file w).2) !! g = files (fs w) !! g)
  /\ (forall e, (saveWallet R file w).1 = Throw e ->
                files (fs (saveWallet R file w).2) = files (fs w))
  /\ (forall c, (saveWallet R file w).1 <> Exit c).
Proof.
  destruct (saveWallet_effect R file w)
    as (r & w1 & Hrun & _ & _ & _ & _ & [[Hr Hf]|(e & Hr & Hf)]);
    rewrite Hrun; simpl; subst r.
  - split; [|split].
    + intros g Hg. rewrite Hf. apply lookup_insert_ne. congruence.
    + intros e He. discriminate He.
    + intros c Hc. discriminate Hc.
  - split; [|split].
    + intros g _. rewrite Hf. reflexivity.
    + intros _ _. exact Hf.
    + intros c Hc. discriminate Hc.
Qed.

Lemma saveWallet_ok_state (R : Wallet) (file : option string) (w w1 : World) :
  saveWallet R file w = (Ret tt, w1) ->
  path_dirname (opt_or file defaultKeyfile) ∈ dirs (fs w1)
  /\ (opt_or file defaultKeyfile ∉ dirs (fs w1))
  /\ (opt_or file defaultKeyfile ∉ readonly (fs w1)).
Proof.
  unfold saveWallet, ensureDir, existsSync, mkdirSync, writeFileSync,
    mbind, M_bind, mret, M_ret.
  set (f := opt_or file defaultKeyfile).
  destruct (negb _); cbv beta iota; simpl fs; simpl dirs; simpl readonly; simpl files.
  - destruct (bool_decide (path_dirname f ∈ _)) eqn:H1; [|discriminate].
    destruct (bool_decide (f ∈ _)) eqn:H2; [discriminate|].
    destruct (bool_decide (f ∈ readonly (fs w))) eqn:H3; [discriminate|].
    intros [= <-]. simpl.
    apply bool_decide_eq_true_1 in H1. apply bool_decide_eq_false_1 in H2.
    apply bool_decide_eq_false_1 in H3. auto.
  - destruct (bool_decide (path_dirname f ∈ _)) eqn:H1; [|discriminate].
    destruct (bool_decide (f ∈ _)) eqn:H2; [discriminate|].
    destruct (bool_decide (f ∈ readonly (fs w))) eqn:H3; [discriminate|].
    intros [= <-]. simpl.
    apply bool_decide_eq_true_1 in H1. apply bool_decide_eq_false_1 in H2.
    apply bool_decide_eq_false_1 in H3. auto.
Qed.

Lemma saveWallet_ready (R : Wallet) (file : option string) (w : World) :
  path_dirname (opt_or file defaultKeyfile) ∈ dirs (fs w) ->
  opt_or file defaultKeyfile ∉ dirs (fs w) ->
  opt_or file defaultKeyfile ∉ readonly (fs w) ->
  saveWallet R file w
  = (Ret tt,
     set_fs {| files := <[opt_or file defaultKeyfile
                          := JSON.stringify (wallet_to_object R)]> (files (fs w));
               dirs := dirs (fs w);
               readonly := readonly (fs w) |} w).
Proof.
  intros Hd Hnd Hnr.
  unfold saveWallet, ensureDir, existsSync, mkdirSync, writeFileSync,
    mbind, M_bind, mret, M_ret.
  set (f := opt_or file defaultKeyfile) in *.
  rewrite (bool_decide_eq_true_2 (path_dirname f ∈ dirs (fs w))) by exact Hd.
  rewrite orb_true_r. cbn [negb]. cbv beta iota.
  rewrite (bool_decide_eq_true_2 (path_dirname f ∈ dirs (fs w))) by exact Hd.
  rewrite (bool_decide_eq_false_2 (f ∈ dirs (fs w))) by exact Hnd.
  rewrite (bool_decide_eq_false_2 (f ∈ readonly (fs w))) by exact Hnr.
  reflexivity.
Qed.

(** X3. Where one save succeeded, a second save to the same path succeeds
    too and replaces the file wholesale: a load then returns the second
    record alone (its [NaN] fields read as [null], its numbers being [NaN]
    or integers a double holds exactly), with no field of the first, and
    every other path holds what it held before the first save. *)
Theorem saveWallet_overwrites (R1 R2 : Wallet) (file : option string) (w w1 : World) :
  safe_wallet R2 ->
  saveWallet R1 file w = (Ret tt, w1) ->
  exists w2,
    saveWallet R2 file w1 = (Ret tt, w2)
    /\ loadWallet file w2 = (Ret (Some (stored R2)), w2)
    /\ (forall g, g <> opt_or file defaultKeyfile ->
                  files (fs w2) !! g = files (fs w) !! g).
Proof.
  intros _ H1.
  destruct (saveWallet_ok_state R1 file w w1 H1) as (Hd & Hnd & Hnr).
  pose proof (saveWallet_ready R2 file w1 Hd Hnd Hnr) as H2.
  eexists. split; [exact H2|].
  destruct (saveWallet_effect R1 file w)
    as (r & w1' & Hrun & _ & _ & _ & _ & [[Hr Hf]|(e & Hr & _)]);
    rewrite H1 in Hrun; injection Hrun as <- <-; [|discriminate Hr].
  split.
  - apply load_after_text. simpl. apply lookup_insert_eq.
  - intros g Hg. simpl. rewrite Hf.
    rewrite !lookup_insert_ne by congruence. reflexivity.
Qed.

(** X4. A load changes nothing, whatever it returns; and where the path is
    neither a file nor a directory it returns [null] instead of failing. *)
Theorem loadWallet_changes_nothing (file : option string) (w : World) :
  (loadWallet file w).2 = w
  /\ (files (fs w) !! opt_or file defaultKeyfile = None ->
      opt_or file defaultKeyfile ∉ dirs (fs w) ->
      (loadWallet file w).1 = Ret None).
Proof.
  split; [apply loadWallet_reads_only|].
  intros Hf Hd.
  unfold loadWallet, existsSync, mbind, M_bind, mret, M_ret. rewrite Hf.
  rewrite (bool_decide_eq_false_2 (is_Some None)) by (intros [x Hx]; discriminate Hx).
  rewrite (bool_decide_eq_false_2 (_ ∈ dirs (fs w))) by exact Hd.
  reflexivity.
Qed.

End KeystoreEffects.

(** ** Resolver: defaults and the accepted algorithm names *)

Section ResolverMore.

Context {L : KeetaLib}.

Ltac next_char s :=
  let c := fresh "c" in
  destruct s as [|c s]; [reflexivity|];
  destruct c as [[] [] [] [] [] [] [] []]; try reflexivity.

Lemma algoConst_string (s : string) :
  algoConst (Str s) =
    if String.eqb s "ed25519" then Ok ED25519
    else if String.eqb s "secp256k1" then Ok ECDSA_SECP256K1
    else if String.eqb s "secp256r1" then Ok ECDSA_SECP256R1
    else Err (JsError "Error" ("Unknown algo: " +:+ s)).
Proof.
  do 10 (next_char s).
Qed.

Lemma algoConst_rejects (a : jsval) :
  valid_algo a = false ->
  algoConst a = Err (JsError "Error" ("Unknown algo: " +:+ toString a)).
Proof.
  destruct a as [| |b|n|s]; try reflexivity.
  simpl valid_algo. rewrite algoConst_string. simpl toString.
  intros H. apply bool_decide_eq_false_1 in H. unfold algorithms in H.
  destruct (String.eqb_spec s "ed25519") as [->|_];
    [exfalso; apply H; repeat constructor|].
  destruct (String.eqb_spec s "secp256k1") as [->|_];
    [exfalso; apply H; repeat constructor|].
  destruct (String.eqb_spec s "secp256r1") as [->|_];
    [exfalso; apply H; repeat constructor|].
  reflexivity.
Qed.

Lemma accountFromWallet_unknown_algo (w : Wallet) :
  truthy (privateKeySecp256k1 w) = false ->
  truthy (algo w) = true ->
  valid_algo (algo w) = false ->
  accountFromWallet w
  = Err (JsError "Error" ("Unknown algo: " +:+ toString (algo w))).
Proof.
  intros Hk Ht Hv. rewrite (accountFromWallet_seed w Hk). unfold js_or.
  rewrite Ht, (algoConst_rejects (algo w) Hv). reflexivity.
Qed.

(** X5. The names [algoConst] accepts are exactly the names that
    [wallet:scan-balances] and [wallet:new] validate against; any other
    value (another case, the empty string, a non-string) throws an error
    that names it. *)
Theorem algoConst_accepts (a : jsval) :
  (valid_algo a = true -> exists k, algoConst a = Ok k)
  /\ (valid_algo a = false ->
      algoConst a = Err (JsError "Error" ("Unknown algo: " +:+ toString a))).
Proof.
  split; [|apply algoConst_rejects].
  destruct a as [| |b|n|s]; try discriminate.
  simpl valid_algo. intros H. apply bool_decide_eq_true_1 in H.
  unfold algorithms in H.
  repeat (apply elem_of_cons in H as [->|H]; [eexists; reflexivity|]).
  inversion H.
Qed.

(** X6. A wallet without a usable private key whose index is absent, zero,
    [null] or [NaN] and whose algorithm is absent or empty resolves as
    index 0 under ed25519; with an algorithm outside the three names it
    fails before the library is asked to derive anything. *)
Theorem accountFromWallet_seed_defaults (w : Wallet) :
  truthy (privateKeySecp256k1 w) = false ->
  (truthy (index w) = false -> truthy (algo w) = false ->
   accountFromWallet w = fromSeed (seed w) (Number (Num 0)) ED25519)
  /\ (truthy (algo w) = true -> valid_algo (algo w) = false ->
      accountFromWallet w
      = Err (JsError "Error" ("Unknown algo: " +:+ toString (algo w)))).
Proof.
  intros Hk. split.
  - rewrite (accountFromWallet_seed w Hk). unfold js_or. intros -> ->. reflexivity.
  - apply (accountFromWallet_unknown_algo w Hk).
Qed.

End ResolverMore.

Lemma accountFromWallet_seed_defaults_witness :
  accountFromWallet (L := Double.lib Double.ledger_tie)
    (seed_wallet (Str "5eed") (Number NaN) (Str ""))
  = Ok "ed25519:5eed/0".
Proof.
  apply (proj1 (accountFromWallet_seed_defaults
                  (L := Double.lib Double.ledger_tie)
                  (seed_wallet (Str "5eed") (Number NaN) (Str "")) eq_refl));
    reflexivity.
Defined.

(** ** The import command: exits, writes and what follows *)

Section ImportMore.

Context {P : Platform} {L : KeetaLib}.


(** Building the record touches no file, exits only with code 1, returns
    only records whose seed is a string or absent, and asks the network
    only when it runs the search. *)
Lemma import_wallet_outcome (opts : ImportOpts) (w : World) :
  exists r w1,
    import_wallet opts w = (r, w1)
    /\ fs w1 = fs w
    /\ (forall c, r = Exit c -> c = 1)
    /\ (forall wl, r = Ret wl -> seed wl <> Number NaN)
    /\ (truthy_opt (io_mnemonic opts)
        && (length (split_ws (trim (default "" (io_mnemonic opts)))) =? 24)%nat
        && io_autoDetect opts = false ->
        net w1 = net w /\ net_calls w1 = net_calls w).
Proof.
  unfold import_wallet.
  destruct (truthy_opt (io_mnemonic opts)) eqn:Hm.
  - destruct (length (split_ws (trim (default "" (io_mnemonic opts)))) =? 24)%nat eqn:Hw;
      cbn [negb].
    2:{ do 2 eexists. split; [reflexivity|]. simpl.
        repeat split; auto; try congruence; intros; discriminate. }
    destruct (io_autoDetect opts) eqn:Ha.
    + destruct (detect_loop_spec (trim (default "" (io_mnemonic opts)))
                  (io_network opts) w)
        as (entries & st & w1 & Hrun & _ & _ & Hfs & Hch).
      unfold mbind, M_bind. rewrite Hrun. unfold chosen in Hch.
      destruct (foundWallet st) as [fw|].
      * destruct Hch as (_ & k & a & i & c & _ & Hfw & _).
        do 2 eexists. split; [reflexivity|]. simpl.
        split; [exact Hfs|]. split; [intros; discriminate|].
        split; [|intros; discriminate].
        intros wl [= <-]. rewrite Hfw. discriminate.
      * do 2 eexists. split; [reflexivity|]. simpl.
        split; [exact Hfs|]. split; [congruence|].
        split; intros; discriminate.
    + unfold mbind, M_bind, lift.
      destruct (seedFromPassphrase _) as [sd|e].
      * do 2 eexists. split; [reflexivity|]. simpl.
        split; [reflexivity|]. split; [intros; discriminate|].
        split; [intros wl [= <-]; discriminate | auto].
      * do 2 eexists. split; [reflexivity|]. simpl.
        split; [reflexivity|]. split; [intros; discriminate|].
        split; [intros; discriminate | auto].
  - destruct (truthy_opt (io_seed opts)).
    { do 2 eexists. split; [reflexivity|]. simpl.
      split; [reflexivity|]. split; [intros; discriminate|].
      split; [intros wl [= <-]; discriminate | auto]. }
    destruct (truthy_opt (io_priv opts)).
    2:{ do 2 eexists. split; [reflexivity|]. simpl.
        split; [reflexivity|]. split; [intros; discriminate|].
        split; [intros; discriminate | auto]. }
    destruct (negb _).
    + do 2 eexists. split; [reflexivity|]. simpl.
      split; [reflexivity|]. split; [congruence|].
      split; [intros; discriminate | auto].
    + do 2 eexists. split; [reflexivity|]. simpl.
      split; [reflexivity|]. split; [intros; discriminate|].
      split; [intros wl [= <-]; discriminate | auto].
Qed.

(** The action once an input is given: build, save, resolve, report. *)
Lemma wallet_import_shape (opts : ImportOpts) (w : World) :
  negb (truthy_opt (io_seed opts)) && negb (truthy_opt (io_priv opts))
  && negb (truthy_opt (io_mnemonic opts)) = false ->
  wallet_import opts w =
    match import_wallet opts w with
    | (Ret wallet, w1) =>
        match saveWallet wallet (Some (getKeyfile (io_keyfile opts))) w1 with
        | (Ret _, w2) =>
            match accountFromWallet wallet with
            | Ok acct =>
                (Ret tt, said (Imported (publicKeyString acct)
                                 (getKeyfile (io_keyfile opts))) w2)
            | Err e => (Throw e, w2)
            end
        | (Throw e, w2) => (Throw e, w2)
        | (Exit c, w2) => (Exit c, w2)
        end
    | (Throw e, w1) => (Throw e, w1)
    | (Exit c, w1) => (Exit c, w1)
    end.
Proof.
  intros H. unfold wallet_import. rewrite H. unfold mbind, M_bind.
  destruct (import_wallet opts w) as [[wallet|e|c] w1]; try reflexivity.
  destruct (saveWallet wallet _ w1) as [[[]|e|c] w2]; try reflexivity.
  unfold lift. destruct (accountFromWallet wallet); reflexivity.
Qed.

(** X7. Whenever [wallet:import] exits, the code is 1 and the file system
    is what it was before the command. *)
Theorem wallet_import_exit (opts : ImportOpts) (w w' : World) (c : Z) :
  wallet_import opts w = (Exit c, w') ->
  c = 1 /\ fs w' = fs w.
Proof.
  destruct (negb (truthy_opt (io_seed opts)) && negb (truthy_opt (io_priv opts))
            && negb (truthy_opt (io_mnemonic opts))) eqn:Hin.
  - unfold wallet_import. rewrite Hin. intros [= <- <-]. auto.
  - rewrite (wallet_import_shape opts w Hin).
    destruct (import_wallet_outcome opts w)
      as (r & w1 & Hrun & Hfs & Hexit & _ & _).
    rewrite Hrun. destruct r as [wallet|e|c1].
    + destruct (saveWallet_effect wallet (Some (getKeyfile (io_keyfile opts))) w1)
        as (r2 & w2 & Hs & _ & _ & _ & _ & [[-> _]|(e & -> & _)]);
        rewrite Hs; [|discriminate].
      destruct (accountFromWallet wallet); discriminate.
    + discriminate.
    + intros [= <- <-]. split; [apply Hexit; reflexivity | exact Hfs].
Qed.

(** X8. [wallet:import] asks the network only for the search: unless a
    24-word mnemonic (in ASCII, where the words are counted as the code
    counts them) and [--auto-detect] are both given, the network state and
    the number of requests are unchanged, whatever the outcome. *)
Theorem wallet_import_offline (opts : ImportOpts) (w : World) :
  is_ascii (default "" (io_mnemonic opts)) = true ->
  truthy_opt (io_mnemonic opts)
  && (length (split_ws (trim (default "" (io_mnemonic opts)))) =? 24)%nat
  && io_autoDetect opts = false ->
  net (wallet_import opts w).2 = net w
  /\ net_calls (wallet_import opts w).2 = net_calls w.
Proof.
  intros _ Hoff.
  destruct (negb (truthy_opt (io_seed opts)) && negb (truthy_opt (io_priv opts))
            && negb (truthy_opt (io_mnemonic opts))) eqn:Hin.
  - unfold wallet_import. rewrite Hin. simpl. auto.
  - rewrite (wallet_import_shape opts w Hin).
    destruct (import_wallet_outcome opts w)
      as (r & w1 & Hrun & _ & _ & _ & Hnet).
    destruct (Hnet Hoff) as (Hn & Hc).
    rewrite Hrun. destruct r as [wallet|e|c1]; simpl; auto.
    destruct (saveWallet_effect wallet (Some (getKeyfile (io_keyfile opts))) w1)
      as (r2 & w2 & Hs & Hn2 & Hc2 & _ & _ & [[-> _]|(e & -> & _)]);
      rewrite Hs; simpl.
    + destruct (accountFromWallet wallet); simpl; split; congruence.
    + split; congruence.
Qed.

(** X9. After an import that completed, of option values in ASCII and an
    [--index] that is not a number or is an integer a double holds exactly,
    [wallet:address] with the same [--keyfile] prints the address the import
    reported, and changes nothing. *)
Theorem wallet_import_then_address (opts : ImportOpts) (w w' : World) :
  is_ascii (default "" (io_mnemonic opts)) = true ->
  is_ascii (io_algo opts) = true ->
  is_ascii (io_index opts) = true ->
  safe_number (parseInt (io_index opts)) ->
  wallet_import opts w = (Ret tt, w') ->
  exists addr,
    last (console w') = Some (Imported addr (getKeyfile (io_keyfile opts)))
    /\ wallet_address (io_keyfile opts) w' = (Ret addr, w').
Proof.
  intros _ _ _ _.
  destruct (negb (truthy_opt (io_seed opts)) && negb (truthy_opt (io_priv opts))
            && negb (truthy_opt (io_mnemonic opts))) eqn:Hin.
  { unfold wallet_import. rewrite Hin. intros H. discriminate H. }
  rewrite (wallet_import_shape opts w Hin).
  destruct (import_wallet_outcome opts w)
    as (r & w1 & Hrun & _ & _ & Hseed & _).
  rewrite Hrun. destruct r as [wallet|e|c1]; try discriminate.
  destruct (saveWallet_effect wallet (Some (getKeyfile (io_keyfile opts))) w1)
    as (r2 & w2 & Hs & _ & _ & _ & _ & [[-> Hf]|(e & -> & _)]);
    rewrite Hs; [|discriminate].
  destruct (accountFromWallet wallet) as [acct|e] eqn:Hacc; [|discriminate].
  intros [= <-]. exists (publicKeyString acct). split.
  - simpl. apply last_snoc.
  - unfold wallet_address, mbind, M_bind.
    rewrite (load_after_text wallet (Some (getKeyfile (io_keyfile opts)))).
    2:{ change (fs (said _ w2)) with (fs w2). rewrite Hf.
        apply lookup_insert_eq. }
    unfold lift. rewrite accountFromWallet_stored by (apply Hseed; reflexivity).
    rewrite Hacc. reflexivity.
Qed.

(** X10. The inputs of [wallet:import] are tried in the order mnemonic,
    seed, private key, and the first one given decides alone: with a
    mnemonic the seed and key options are not read, and with a seed the key
    option is not read (nor is the algorithm checked against secp256k1). *)
Theorem wallet_import_precedence (opts : ImportOpts) (w : World) :
  (truthy_opt (io_mnemonic opts) = true ->
   forall s p,
     wallet_import
       {| io_seed := s; io_priv := p; io_mnemonic := io_mnemonic opts;
          io_algo := io_algo opts; io_index := io_index opts;
          io_autoDetect := io_autoDetect opts; io_network := io_network opts;
          io_keyfile := io_keyfile opts |} w
     = wallet_import opts w)
  /\ (truthy_opt (io_mnemonic opts) = false ->
      truthy_opt (io_seed opts) = true ->
      forall p,
        wallet_import
          {| io_seed := io_seed opts; io_priv := p; io_mnemonic := io_mnemonic opts;
             io_algo := io_algo opts; io_index := io_index opts;
             io_autoDetect := io_autoDetect opts; io_network := io_network opts;
             io_keyfile := io_keyfile opts |} w
        = wallet_import opts w).
Proof.
  split.
  - intros Hm s p. unfold wallet_import, import_wallet. cbn [io_seed io_priv
      io_mnemonic io_algo io_index io_autoDetect io_network io_keyfile].
    rewrite Hm. rewrite !andb_false_r. reflexivity.
  - intros Hm Hs p. unfold wallet_import, import_wallet. cbn [io_seed io_priv
      io_mnemonic io_algo io_index io_autoDetect io_network io_keyfile].
    rewrite Hm, Hs. reflexivity.
Qed.



(** X12. A leading [0x] of [--seed] is dropped before the record is built:
    the seed with and without the prefix gives the same run. *)
Theorem wallet_import_seed_prefix (opts : ImportOpts) (w : World) (s : string) :
  truthy_opt (io_mnemonic opts) = false ->
  io_seed opts = Some s ->
  s <> "" ->
  startsWith "0x" s = false ->
  wallet_import
    {| io_seed := Some ("0x" +:+ s); io_priv := io_priv opts;
       io_mnemonic := io_mnemonic opts; io_algo := io_algo opts;
       io_index := io_index opts; io_autoDetect := io_autoDetect opts;
       io_network := io_network opts; io_keyfile := io_keyfile opts |} w
  = wallet_import opts w.
Proof.
  intros Hm Hs Hne Hp.
  assert (Hts : truthy_opt (Some s) = true).
  { simpl. destruct (String.eqb_spec s ""); [contradiction|reflexivity]. }
  unfold wallet_import, import_wallet. cbn [io_seed io_priv
    io_mnemonic io_algo io_index io_autoDetect io_network io_keyfile].
  rewrite Hm, Hs, Hts.
  change (truthy_opt (Some ("0x" +:+ s))) with true.
  cbn [negb andb default from_option]. unfold id.
  replace (strip_0x ("0x" +:+ s)) with s.
  2:{ unfold strip_0x.
      change (startsWith "0x" ("0x" +:+ s)) with (String.prefix "" s).
      destruct s; reflexivity. }
  replace (strip_0x s) with s by (unfold strip_0x; rewrite Hp; reflexivity).
  reflexivity.
Qed.

(** X13. After a [wallet:new] that completed, the algorithm is one of the
    three names, and [wallet:address] with the same [--keyfile] prints the
    address of the new wallet. *)
Theorem wallet_new_then_address (sd a : string) (kf : option string)
    (w w' : World) (addr p : string) :
  wallet_new sd a kf w = (Ret (addr, p), w') ->
  toLowerCase a ∈ algorithms
  /\ p = getKeyfile kf
  /\ wallet_address kf w' = (Ret addr, w').
Proof.
  unfold wallet_new.
  destruct (bool_decide (toLowerCase a ∈ algorithms)) eqn:Hv; cbn [negb];
    [|intros H; discriminate H].
  apply bool_decide_eq_true_1 in Hv. unfold mbind, M_bind.
  set (wallet := seed_wallet (Str sd) Undefined (Str (toLowerCase a))).
  destruct (saveWallet wallet (Some (getKeyfile kf)) w) as [[[]|e|c] w1] eqn:Hs;
    try (intros H; discriminate H).
  unfold lift. destruct (accountFromWallet wallet) as [acct|e] eqn:Hacc;
    [|intros H; discriminate H].
  intros [= <- <- <-]. split; [exact Hv|]. split; [reflexivity|].
  pose proof (saveWallet_then_load wallet (Some (getKeyfile kf)) w w1 Hs) as Hload.
  unfold wallet_address, mbind, M_bind. rewrite Hload.
  change (stored wallet) with wallet. unfold lift. rewrite Hacc. reflexivity.
Qed.

End ImportMore.

(** ** The search: what it asks of the network *)

Section SearchMore.

Context {L : KeetaLib}.

Lemma detect_probe_requests (mnemonic network a : string) (i : Z) (st : Detect)
    (w : World) :
  exists status w',
    detect_probe mnemonic network a i st w
    = (Ret (detect_update (seed_of mnemonic) (a, i, status) st), w')
    /\ console w' = console w ++ [Probed a i status]
    /\ net_calls w' = (net_calls w + if asked (a, i, status) then 1 else 0)%nat
    /\ (forall e, seedFromPassphrase mnemonic = Err e -> status = ProbeError e).
Proof.
  unfold detect_probe, try_catch, mbind, M_bind, lift, seed_of.
  destruct (seedFromPassphrase mnemonic) as [sd|e]; simpl.
  2:{ exists (ProbeError e). eexists. split; [reflexivity|]. simpl.
      split; [reflexivity|]. split; [lia|]. intros e' [= <-]. reflexivity. }
  destruct (accountFromWallet _) as [acct|e]; simpl.
  2:{ exists (ProbeError e). eexists. split; [reflexivity|]. simpl.
      split; [reflexivity|]. split; [lia|]. intros e' H. discriminate H. }
  destruct (clientFrom network (Some acct)) as [client|e]; simpl.
  2:{ exists (ProbeError e). eexists. split; [reflexivity|]. simpl.
      split; [reflexivity|]. split; [lia|]. intros e' H. discriminate H. }
  unfold net_call. destruct (allBalances client (net w)) as [[bals|e] n']; simpl.
  2:{ exists (NetworkError (publicKeyString acct)). eexists.
      split; [reflexivity|]. simpl.
      split; [reflexivity|]. split; [lia|]. intros e' H. discriminate H. }
  destruct (0 <? length bals)%nat eqn:Hc; simpl.
  - exists (HasBalance (publicKeyString acct) (length bals) (sum_balances bals)).
    unfold detect_update; simpl.
    destruct (maxBalance st <? sum_balances bals); simpl;
      eexists; (split; [reflexivity|]); simpl;
      (split; [reflexivity|]); (split; [lia|]); intros e' H; discriminate H.
  - exists (NoBalance (publicKeyString acct)). eexists.
    split; [reflexivity|]. simpl.
    split; [reflexivity|]. split; [lia|]. intros e' H. discriminate H.
Qed.

Lemma detect_probes_requests (mnemonic network : string) (cs : list (string * Z))
    (st : Detect) (w : World) :
  exists (statuses : list ProbeStatus) st' w',
    length statuses = length cs
    /\ for_of cs (fun c s => detect_probe mnemonic network c.1 c.2 s) st w
       = (Ret st', w')
    /\ console w' = console w ++ map probed (zip cs statuses)
    /\ net_calls w'
       = (net_calls w + length (List.filter asked (zip cs statuses)))%nat
    /\ (forall e, seedFromPassphrase mnemonic = Err e ->
                  Forall (fun s => s = ProbeError e) statuses).
Proof.
  revert st w. induction cs as [|[a i] cs IH]; intros st w.
  - exists [], st, w. simpl. rewrite app_nil_r.
    repeat split; auto.
  - destruct (detect_probe_requests mnemonic network a i st w)
      as (status & w1 & Hrun & Hcon & Hcalls & Herr).
    destruct (IH (detect_update (seed_of mnemonic) (a, i, status) st) w1)
      as (statuses & st' & w2 & Hlen & Hrun2 & Hcon2 & Hcalls2 & Herr2).
    exists (status :: statuses), st', w2. simpl for_of. simpl length.
    unfold mbind, M_bind. rewrite Hrun, Hrun2, Hcon2, Hcon, Hcalls2, Hcalls.
    split; [lia|]. split; [reflexivity|].
    split; [rewrite <- app_assoc; reflexivity|]. split.
    + simpl zip. simpl List.filter.
      destruct (asked (a, i, status)); simpl length; lia.
    + intros e He. constructor; [apply (Herr e He) | apply (Herr2 e He)].
Qed.

(** X14. The search asks the network once for every pair except those whose
    derivation failed, so at most eighteen times; a mnemonic the library
    rejects costs no request at all. *)
Theorem search_request_count (mnemonic network : string) (w : World) :
  exists entries : list Entry,
    detect_trace mnemonic network w = map probed entries
    /\ length entries = 18%nat
    /\ net_calls (detect_loop mnemonic network w).2
       = (net_calls w + length (List.filter asked entries))%nat
    /\ (net_calls (detect_loop mnemonic network w).2 <= net_calls w + 18)%nat
    /\ (forall e, seedFromPassphrase mnemonic = Err e ->
        net_calls (detect_loop mnemonic network w).2 = net_calls w
        /\ Forall (fun en : Entry => en.2 = ProbeError e) entries).
Proof.
  destruct (detect_probes_requests mnemonic network candidates detect_init w)
    as (statuses & st' & w' & Hlen & Hrun & Hcon & Hcalls & Herr).
  assert (Hloop : detect_loop mnemonic network w = (Ret st', w')).
  { unfold detect_loop. rewrite for_of_nested. exact Hrun. }
  assert (Hn : length (zip candidates statuses) = 18%nat).
  { rewrite length_zip_with, Hlen. reflexivity. }
  exists (zip candidates statuses).
  split; [eapply detect_trace_entries; eauto|]. split; [exact Hn|].
  rewrite Hloop. simpl snd. split; [exact Hcalls|]. split.
  - rewrite Hcalls. pose proof (filter_length_le asked (zip candidates statuses)). lia.
  - intros e He. specialize (Herr e He).
    assert (Hall : Forall (fun en : Entry => en.2 = ProbeError e)
                     (zip candidates statuses)).
    { clear -Herr. revert statuses Herr.
      generalize candidates as cs.
      induction cs as [|c cs IH]; intros [|s ss] H; simpl; try constructor.
      - apply Forall_cons in H as [H _]. exact H.
      - apply Forall_cons in H as [_ H]. apply IH, H. }
    split; [|exact Hall]. rewrite Hcalls.
    replace (List.filter asked (zip candidates statuses)) with (@nil Entry);
      [simpl; lia|].
    clear -Hall. induction Hall as [|[[a i] s] l Hs Hl IH]; [reflexivity|].
    simpl in Hs. subst s. simpl. exact IH.
Qed.

End SearchMore.

(** ** The scan command: validation, effects and completion *)

Section ScanMore.

Context {P : Platform} {L : KeetaLib}.

Lemma validate_algos_ok (algos : list jsval) (w : World) :
  Forall (fun a => valid_algo a = true) algos ->
  validate_algos algos w = (Ret tt, w).
Proof.
  unfold validate_algos. induction 1 as [|a algos Ha _ IH]; [reflexivity|].
  simpl for_of. unfold mbind, M_bind at 1. rewrite Ha. cbn [negb].
  unfold mret, M_ret at 1. exact IH.
Qed.

Lemma validate_algos_first_invalid (pre post : list jsval) (a : jsval) (w : World) :
  Forall (fun a => valid_algo a = true) pre ->
  valid_algo a = false ->
  validate_algos (pre ++ a :: post) w = (Exit 1, said (invalid_algo_line a) w).
Proof.
  unfold validate_algos. intros Hpre Ha.
  rewrite for_of_app. fold (validate_algos pre).
  rewrite (validate_algos_ok pre w Hpre).
  simpl for_of. unfold mbind, M_bind. rewrite Ha. reflexivity.
Qed.

Lemma first_invalid (algos : list jsval) :
  Forall (fun a => valid_algo a = true) algos
  \/ exists pre a post,
       algos = pre ++ a :: post
       /\ Forall (fun a => valid_algo a = true) pre
       /\ valid_algo a = false.
Proof.
  induction algos as [|a algos IH]; [left; constructor|].
  destruct (valid_algo a) eqn:Ha.
  - destruct IH as [IH|(pre & b & post & -> & Hpre & Hb)].
    + left. constructor; assumption.
    + right. exists (a :: pre), b, post. repeat split; auto.
  - right. exists [], a, algos. repeat split; auto.
Qed.

Lemma scan_probe_spec (client : ReadOnlyClient) (seedHex : jsval) (verbose : bool)
    (a : jsval) (idx : Z) (found : list Found) (w : World) :
  exists msgs found' w',
    scan_probe client seedHex verbose a idx found w = (Ret found', w')
    /\ console w' = console w ++ msgs
    /\ fs w' = fs w
    /\ (net_calls w' <= net_calls w + 1)%nat
    /\ length found' = (length found + length (List.filter is_row msgs))%nat
    /\ Forall (fun m => is_scan_line m = true) msgs.
Proof.
  unfold scan_probe, try_catch, mbind, M_bind, lift.
  destruct (accountFromWallet _) as [acct|e]; simpl.
  2:{ exists [ScanNetworkError a idx]. do 2 eexists. split; [reflexivity|].
      simpl. repeat split; auto; lia. }
  unfold net_call. destruct (getAccountInfo client acct (net w)) as [[info|e] n'];
    simpl.
  2:{ exists [ScanNetworkError a idx]. do 2 eexists. split; [reflexivity|].
      simpl. repeat split; auto; lia. }
  destruct ((0 <? length (default [] (balances info)))%nat || verbose); simpl.
  - eexists [ScanRow a idx _ _]. do 2 eexists. split; [reflexivity|].
    simpl. repeat split; auto; try lia.
    rewrite length_app. simpl. lia.
  - exists []. do 2 eexists. split; [reflexivity|].
    simpl. rewrite app_nil_r. repeat split; auto; try lia.
Qed.

Lemma scan_probes_spec (client : ReadOnlyClient) (seedHex : jsval) (verbose : bool)
    (pairs : list (jsval * Z)) (found : list Found) (w : World) :
  exists msgs found' w',
    for_of pairs
      (fun p found0 => scan_probe client seedHex verbose p.1 p.2 found0) found w
    = (Ret found', w')
    /\ console w' = console w ++ msgs
    /\ fs w' = fs w
    /\ (net_calls w' <= net_calls w + length pairs)%nat
    /\ length found' = (length found + length (List.filter is_row msgs))%nat
    /\ Forall (fun m => is_scan_line m = true) msgs.
Proof.
  revert found w. induction pairs as [|[a idx] pairs IH]; intros found w.
  - exists [], found, w. simpl. rewrite app_nil_r. repeat split; auto; lia.
  - destruct (scan_probe_spec client seedHex verbose a idx found w)
      as (m1 & f1 & w1 & Hrun1 & Hc1 & Hfs1 & Hn1 & Hl1 & Hall1).
    destruct (IH f1 w1) as (m2 & f2 & w2 & Hrun2 & Hc2 & Hfs2 & Hn2 & Hl2 & Hall2).
    exists (m1 ++ m2), f2, w2. simpl for_of. unfold mbind, M_bind.
    simpl fst. simpl snd. rewrite Hrun1, Hrun2.
    split; [reflexivity|]. split; [rewrite Hc2, Hc1, app_assoc; reflexivity|].
    split; [congruence|]. split; [simpl length; lia|].
    split; [|apply Forall_app; auto].
    rewrite List.filter_app, length_app. lia.
Qed.


(** The scan after its seed is found. *)
Lemma wallet_scan_balances_shape (opts : ScanOpts) (w w1 : World)
    (seedHex defaultAlgo : jsval) (s e : Z) :
  scan_seed opts w = (Ret (seedHex, defaultAlgo), w1) ->
  parseInt (so_start opts) = Num s ->
  parseInt (so_end opts) = Num e ->
  0 <= s <= e ->
  wallet_scan_balances opts w =
    match validate_algos (scan_algos opts defaultAlgo) w1 with
    | (Ret _, w2) =>
        match readOnlyClientFrom (so_network opts) with
        | Ok client =>
            match for_of
                    (flat_map (fun a => map (pair a) (seqZ s (e - s + 1)))
                              (scan_algos opts defaultAlgo))
                    (fun p found0 =>
                       scan_probe client seedHex (so_verbose opts) p.1 p.2 found0)
                    [] w2 with
            | (Ret found, w3) => (Ret tt, said (ScanComplete (length found)) w3)
            | (Throw x, w3) => (Throw x, w3)
            | (Exit c, w3) => (Exit c, w3)
            end
        | Err x => (Throw x, w2)
        end
    | (Throw x, w2) => (Throw x, w2)
    | (Exit c, w2) => (Exit c, w2)
    end.
Proof.
  intros Hseed Hs He Hrange.
  unfold wallet_scan_balances, mbind at 1, M_bind at 1. rewrite Hseed, Hs, He.
  replace ((s <? 0) || (e <? s)) with false
    by (symmetry; apply orb_false_iff; split; apply Z.ltb_ge; lia).
  fold (validate_algos (scan_algos opts defaultAlgo)).
  unfold mbind at 1, M_bind at 1.
  destruct (validate_algos (scan_algos opts defaultAlgo) w1) as [[[]|x|c] w2];
    try reflexivity.
  unfold mbind at 1, M_bind at 1, lift.
  destruct (readOnlyClientFrom (so_network opts)) as [client|x]; [|reflexivity].
  unfold mret at 1, M_ret at 1. unfold mbind at 1, M_bind at 1.
  rewrite for_of_nested.
  destruct (for_of _ _ [] w2) as [[found|x|c] w3]; reflexivity.
Qed.


(** X16. The scan never writes: whatever its options and its outcome, the
    file system after it is the one before it. *)
Theorem scan_never_writes (opts : ScanOpts) (w : World) :
  fs (wallet_scan_balances opts w).2 = fs w.
Proof.
  pose proof (scan_seed_quiet opts w) as (Hfs & _ & _).
  destruct (scan_seed opts w) as [[[seedHex defaultAlgo]|x|c] w1] eqn:Hseed;
    simpl in Hfs.
  2,3: unfold wallet_scan_balances, mbind, M_bind; rewrite Hseed; exact Hfs.
  destruct (parseInt (so_start opts)) as [|s] eqn:Hs.
  { unfold wallet_scan_balances, mbind, M_bind. rewrite Hseed, Hs. exact Hfs. }
  destruct (parseInt (so_end opts)) as [|e] eqn:He.
  { unfold wallet_scan_balances, mbind, M_bind. rewrite Hseed, Hs, He. exact Hfs. }
  destruct ((s <? 0) || (e <? s)) eqn:Hr.
  { unfold wallet_scan_balances, mbind, M_bind. rewrite Hseed, Hs, He, Hr. exact Hfs. }
  apply orb_false_iff in Hr as [Hr1 Hr2].
  apply Z.ltb_ge in Hr1. apply Z.ltb_ge in Hr2.
  rewrite (wallet_scan_balances_shape opts w w1 seedHex defaultAlgo s e
             Hseed Hs He (conj Hr1 Hr2)).
  destruct (first_invalid (scan_algos opts defaultAlgo))
    as [Hvalid|(pre & a & post & Heq & Hpre & Ha)].
  - rewrite (validate_algos_ok _ w1 Hvalid).
    destruct (readOnlyClientFrom (so_network opts)) as [client|x]; [|exact Hfs].
    destruct (scan_probes_spec client seedHex (so_verbose opts)
                (flat_map (fun a => map (pair a) (seqZ s (e - s + 1)))
                          (scan_algos opts defaultAlgo)) [] w1)
      as (msgs & found & w3 & Hrun & _ & Hfs3 & _).
    rewrite Hrun. simpl. congruence.
  - rewrite Heq, (validate_algos_first_invalid pre post a w1 Hpre Ha). exact Hfs.
Qed.



End ScanMore.

(** ** The derivation listing *)

Section Derivations.

Context {P : Platform} {L : KeetaLib}.




End Derivations.

(** ** The search and the import agree on the address *)

Section SearchImport.

Context {P : Platform} {L : KeetaLib}.




End SearchImport.


(** ** Runs of the further properties on the test double *)

Lemma load_after_save_witness :
  (loadWallet (P := Double.platform) (L := Double.lib Double.ledger_tie)
     (Some "/tmp/w.json")
     (saveWallet (P := Double.platform) (L := Double.lib Double.ledger_tie)
        Double.nan_wallet (Some "/tmp/w.json")
        (Double.world0 Double.ledger_tie)).2).1
  = Ret (Some (seed_wallet (Str "5eed") Null (Str "ed25519"))).
Proof.
  destruct (load_after_save (P := Double.platform)
              (L := Double.lib Double.ledger_tie)
              Double.nan_wallet (Some "/tmp/w.json")
              (Double.world0 Double.ledger_tie)
              (saveWallet (P := Double.platform) (L := Double.lib Double.ledger_tie)
                 Double.nan_wallet (Some "/tmp/w.json")
                 (Double.world0 Double.ledger_tie)).2) as [H _].
  - repeat constructor.
  - vm_compute. reflexivity.
  - rewrite H. reflexivity.
Defined.

Lemma saveWallet_overwrites_witness :
  exists w2,
    saveWallet (P := Double.platform) (L := Double.lib Double.ledger_tie)
      Double.nan_wallet (Some "/tmp/w.json")
      (saveWallet (P := Double.platform) (L := Double.lib Double.ledger_tie)
         Double.key_wallet (Some "/tmp/w.json")
         (Double.world0 Double.ledger_tie)).2
    = (Ret tt, w2)
    /\ loadWallet (P := Double.platform) (L := Double.lib Double.ledger_tie)
         (Some "/tmp/w.json") w2
       = (Ret (Some (stored Double.nan_wallet)), w2).
Proof.
  destruct (saveWallet_overwrites (P := Double.platform)
              (L := Double.lib Double.ledger_tie)
              Double.key_wallet Double.nan_wallet (Some "/tmp/w.json")
              (Double.world0 Double.ledger_tie)
              (saveWallet (P := Double.platform) (L := Double.lib Double.ledger_tie)
                 Double.key_wallet (Some "/tmp/w.json")
                 (Double.world0 Double.ledger_tie)).2)
    as (w2 & H1 & H3 & _).
  - repeat constructor.
  - vm_compute. reflexivity.
  - exists w2. split; assumption.
Defined.

Lemma wallet_import_exit_witness :
  fs (wallet_import (P := Double.platform) (L := Double.lib Double.ledger_zero)
        Double.import_opts (Double.world0 Double.ledger_zero)).2
  = fs (Double.world0 Double.ledger_zero).
Proof.
  apply (proj2 (wallet_import_exit (P := Double.platform)
                  (L := Double.lib Double.ledger_zero)
                  Double.import_opts (Double.world0 Double.ledger_zero)
                  (wallet_import (P := Double.platform)
                     (L := Double.lib Double.ledger_zero)
                     Double.import_opts (Double.world0 Double.ledger_zero)).2
                  1 ltac:(vm_compute; reflexivity))).
Defined.

Lemma wallet_import_offline_witness :
  net_calls
    (wallet_import (P := Double.platform) (L := Double.lib Double.ledger_tie)
       (Double.seed_opts "0xabcd" "ed25519") (Double.world0 Double.ledger_tie)).2
  = 0%nat.
Proof.
  apply (proj2 (wallet_import_offline (P := Double.platform)
                  (L := Double.lib Double.ledger_tie)
                  (Double.seed_opts "0xabcd" "ed25519")
                  (Double.world0 Double.ledger_tie) eq_refl eq_refl)).
Defined.

Lemma wallet_import_then_address_witness :
  exists addr,
    wallet_address (P := Double.platform) (L := Double.lib Double.ledger_tie)
      (Some "/tmp/w.json")
      (wallet_import (P := Double.platform) (L := Double.lib Double.ledger_tie)
         Double.import_opts (Double.world0 Double.ledger_tie)).2
    = (Ret addr,
       (wallet_import (P := Double.platform) (L := Double.lib Double.ledger_tie)
          Double.import_opts (Double.world0 Double.ledger_tie)).2).
Proof.
  destruct (wallet_import_then_address (P := Double.platform)
              (L := Double.lib Double.ledger_tie)
              Double.import_opts (Double.world0 Double.ledger_tie)
              (wallet_import (P := Double.platform)
                 (L := Double.lib Double.ledger_tie)
                 Double.import_opts (Double.world0 Double.ledger_tie)).2)
    as (addr & _ & H).
  - reflexivity.
  - reflexivity.
  - reflexivity.
  - vm_compute. split; discriminate.
  - vm_compute. reflexivity.
  - exists addr. exact H.
Defined.


Lemma wallet_import_seed_prefix_witness :
  wallet_import (P := Double.platform) (L := Double.lib Double.ledger_tie)
    (Double.seed_opts "0xabcd" "ed25519") (Double.world0 Double.ledger_tie)
  = wallet_import (P := Double.platform) (L := Double.lib Double.ledger_tie)
      (Double.seed_opts "abcd" "ed25519") (Double.world0 Double.ledger_tie).
Proof.
  apply (wallet_import_seed_prefix (P := Double.platform)
           (L := Double.lib Double.ledger_tie)
           (Double.seed_opts "abcd" "ed25519")
           (Double.world0 Double.ledger_tie) "abcd");
    first [reflexivity | discriminate].
Defined.

Lemma wallet_new_then_address_witness :
  wallet_address (P := Double.platform) (L := Double.lib Double.ledger_tie)
    (Some "/tmp/w.json")
    (wallet_new (P := Double.platform) (L := Double.lib Double.ledger_tie)
       "5eed" "ED25519" (Some "/tmp/w.json") (Double.world0 Double.ledger_tie)).2
  = (Ret "ed25519:5eed/0",
     (wallet_new (P := Double.platform) (L := Double.lib Double.ledger_tie)
        "5eed" "ED25519" (Some "/tmp/w.json") (Double.world0 Double.ledger_tie)).2).
Proof.
  apply (wallet_new_then_address (P := Double.platform)
           (L := Double.lib Double.ledger_tie)
           "5eed" "ED25519" (Some "/tmp/w.json")
           (Double.world0 Double.ledger_tie) _ "ed25519:5eed/0" "/tmp/w.json").
  vm_compute. reflexivity.
Defined.




